(** * CycleClock: the per-architecture cycle counter reader of
      [src/cycleclock.h] ([benchmark::cycleclock::Now]).

    The header selects, with the preprocessor, one of ten bodies for
    [Now()].  Each body reads hardware or kernel state (a time-stamp
    counter, a time base, a performance-monitor register, the
    microsecond clock) and combines what it read into an [int64_t].

    The embedding has four layers:
    - fixed-width integers as [Z] with the wrap-around written out;
    - the preprocessor dispatch as a function from a record of flags to
      either the [#error] text or the selected body;
    - each body as a program in a small state monad whose state is the
      instant of the next hardware access and the log of accesses made,
      over a [Hardware] record that says what each register holds at each
      instant;
    - a [Codegen] record for the PowerPC and ARM bodies, whose [asm]
      statements are not [volatile]: the compiler may merge the two
      [mftbu], run the read of the cycle counter ahead of its guards, and
      move a read out of the loop that calls [Now()].  [as_written] is the
      code generation that leaves every statement where it stands. *)

From Stdlib Require Import ZArith List Bool Lia String Sorted.
Import ListNotations.

Local Open Scope Z_scope.

(* ------------------------------------------------------------------ *)
(** ** Fixed-width integers *)

Module Int.

(** The value of the low [w] bits of [x] read as an unsigned number. *)
Definition to_uint (w x : Z) : Z := x mod 2 ^ w.

(** The value of the low [w] bits of [x] read in two's complement. *)
Definition to_sint (w x : Z) : Z := (x + 2 ^ (w - 1)) mod 2 ^ w - 2 ^ (w - 1).

Definition to_uint32 : Z -> Z := to_uint 32.
Definition to_uint64 : Z -> Z := to_uint 64.
Definition to_int64 : Z -> Z := to_sint 64.

Definition uint32_range (x : Z) : Prop := 0 <= x < 2 ^ 32.
Definition uint64_range (x : Z) : Prop := 0 <= x < 2 ^ 64.
Definition int64_range (x : Z) : Prop := - 2 ^ 63 <= x < 2 ^ 63.

(** [uint64_t] operators. *)
Definition shl_u64 (x n : Z) : Z := to_uint64 (Z.shiftl x n).

(** [int64_t] operators; the result is the two's complement reading of
    the low 64 bits, which is what every target of the header computes
    (the C++ standard before C++20 leaves the overflowing cases
    undefined). *)
Definition shl_s64 (x n : Z) : Z := to_int64 (Z.shiftl x n).
Definition neg_s64 (x : Z) : Z := to_int64 (- x).
Definition mul_s64 (x y : Z) : Z := to_int64 (x * y).
Definition add_s64 (x y : Z) : Z := to_int64 (x + y).

(** A C++ [bool] converted to an integer. *)
Definition of_bool (b : bool) : Z := if b then 1 else 0.

(** The truth value of an integer used as a condition. *)
Definition truthy (x : Z) : bool := negb (x =? 0).

End Int.
Import Int.

(* ------------------------------------------------------------------ *)
(** ** Build configuration: the preprocessor symbols the header tests *)

Record Flags : Type := mkFlags {
  OS_MACOSX : bool;
  __i386__ : bool;
  __x86_64__ : bool;
  __amd64__ : bool;
  __powerpc__ : bool;
  __ppc__ : bool;
  __sparc__ : bool;
  __ia64__ : bool;
  COMPILER_MSVC : bool;
  _M_IX86 : bool;
  ARMV3 : bool;
  ARMV6 : bool;
  __mips__ : bool
}.

(** The bodies of [Now()], in the order of the [#if]/[#elif] chain.  The
    ARM body contains a nested [#if defined(ARMV6)], so it comes in two
    variants. *)
Inductive Branch : Type :=
| BrMacOSX
| BrI386
| BrX86_64
| BrPowerPC
| BrSparc
| BrIA64
| BrMsvcIX86
| BrMsvc
| BrArm (v6 : bool)
| BrMips.

(** The condition of the [#if]/[#elif] line that guards each body. *)
Definition guard (f : Flags) (b : Branch) : bool :=
  match b with
  | BrMacOSX => OS_MACOSX f
  | BrI386 => __i386__ f
  | BrX86_64 => __x86_64__ f || __amd64__ f
  | BrPowerPC => __powerpc__ f || __ppc__ f
  | BrSparc => __sparc__ f
  | BrIA64 => __ia64__ f
  | BrMsvcIX86 => COMPILER_MSVC f && _M_IX86 f
  | BrMsvc => COMPILER_MSVC f
  | BrArm v6 => ARMV3 f && Bool.eqb (ARMV6 f) v6
  | BrMips => __mips__ f
  end.

(** The chain itself: the first guard that holds wins; [None] is the
    [#else] arm. *)
Definition select (f : Flags) : option Branch :=
  if OS_MACOSX f then Some BrMacOSX
  else if __i386__ f then Some BrI386
  else if __x86_64__ f || __amd64__ f then Some BrX86_64
  else if __powerpc__ f || __ppc__ f then Some BrPowerPC
  else if __sparc__ f then Some BrSparc
  else if __ia64__ f then Some BrIA64
  else if COMPILER_MSVC f && _M_IX86 f then Some BrMsvcIX86
  else if COMPILER_MSVC f then Some BrMsvc
  else if ARMV3 f then Some (BrArm (ARMV6 f))
  else if __mips__ f then Some BrMips
  else None.

Definition all_branches : list Branch :=
  [BrMacOSX; BrI386; BrX86_64; BrPowerPC; BrSparc; BrIA64; BrMsvcIX86;
   BrMsvc; BrArm true; BrArm false; BrMips].

(** A flag assignment is recognized when the guard of some body holds. *)
Definition recognized (f : Flags) : bool :=
  existsb (guard f) all_branches.

(** The text of the [#error] directive. *)
Definition error_message : string :=
  "You need to define CycleTimer for your OS and CPU".

(* ------------------------------------------------------------------ *)
(** ** Hardware and kernel state *)

Record timeval : Type := mkTimeval { tv_sec : Z; tv_usec : Z }.

(** What each counter or register holds at each instant.  The fields are
    unbounded; each access below truncates to the width of the register
    or of the C++ type that receives it. *)
Record Hardware : Type := mkHardware {
  mach_time : nat -> Z;     (* what mach_absolute_time() returns *)
  tsc : nat -> Z;           (* x86 time-stamp counter, EDX:EAX *)
  timebase : nat -> Z;      (* PowerPC time base, TBU:TBL *)
  tick : nat -> Z;          (* SPARC %tick, moved through %g1 *)
  itc : nat -> Z;           (* IA-64 ar.itc *)
  pmuseren : nat -> Z;      (* ARM c9, c14, 0 *)
  pmcntenset : nat -> Z;    (* ARM c9, c12, 1 *)
  pmccntr : nat -> Z;       (* ARM c9, c13, 0 *)
  clock : nat -> timeval    (* what gettimeofday() stores *)
}.

(** One entry per instruction or call that reads the state. *)
Inductive Access : Type :=
| A_mach_absolute_time
| A_rdtsc
| A_mftbu
| A_mftb
| A_rd_tick
| A_mov_ar_itc
| A_mrc_pmuseren
| A_mrc_pmcntenset
| A_mrc_pmccntr
| A_gettimeofday.

(** The state threaded through a run: the instant of the next access and
    the accesses made so far, oldest first. *)
Record World : Type := mkWorld { time : nat; trace : list Access }.

Definition M (A : Type) : Type := World -> A * World.

Definition ret {A : Type} (a : A) : M A := fun w => (a, w).

Definition bind {A B : Type} (m : M A) (k : A -> M B) : M B :=
  fun w => let (a, w') := m w in k a w'.

Declare Scope cyc_scope.
Delimit Scope cyc_scope with cyc.
Notation "x <- m ;; k" := (bind m (fun x => k))
  (at level 61, m at next level, right associativity) : cyc_scope.
Notation "' p <- m ;; k" := (bind m (fun x => let p := x in k))
  (at level 61, p pattern, m at next level, right associativity) : cyc_scope.
Local Open Scope cyc_scope.

(** An access reads the state at the current instant, logs itself and
    lets one instant pass. *)
Definition access {A : Type} (a : Access) (read : nat -> A) : M A :=
  fun w => (read (time w),
            {| time := S (time w); trace := trace w ++ [a] |}).

Section Reads.

Variable hw : Hardware.

(** [uint64_t mach_absolute_time()]. *)
Definition mach_absolute_time : M Z :=
  access A_mach_absolute_time (fun t => to_uint64 (mach_time hw t)).

(** [rdtsc]: low half in EAX, high half in EDX. *)
Definition rdtsc : M (Z * Z) :=
  access A_rdtsc
    (fun t => (to_uint32 (tsc hw t), to_uint32 (Z.shiftr (tsc hw t) 32))).

(** [mftbu]: the upper half of the time base. *)
Definition mftbu : M Z :=
  access A_mftbu (fun t => to_uint32 (Z.shiftr (timebase hw t) 32)).

(** [mftb]: the lower half of the time base. *)
Definition mftb : M Z :=
  access A_mftb (fun t => to_uint32 (timebase hw t)).

Definition rd_tick : M Z :=
  access A_rd_tick (fun t => to_uint64 (tick hw t)).

Definition mov_ar_itc : M Z :=
  access A_mov_ar_itc (fun t => to_uint64 (itc hw t)).

Definition mrc_pmuseren : M Z :=
  access A_mrc_pmuseren (fun t => to_uint32 (pmuseren hw t)).

Definition mrc_pmcntenset : M Z :=
  access A_mrc_pmcntenset (fun t => to_uint32 (pmcntenset hw t)).

Definition mrc_pmccntr : M Z :=
  access A_mrc_pmccntr (fun t => to_uint32 (pmccntr hw t)).

Definition gettimeofday : M timeval :=
  access A_gettimeofday (clock hw).

End Reads.

(* ------------------------------------------------------------------ *)
(** ** Code generation for the [asm] statements without [volatile] *)

(** The two [rdtsc] statements (lines 64 and 68) are [__asm__ volatile];
    the PowerPC statements (lines 73-75) and the ARM statements (lines
    102-106) are plain [asm] with an output and no input, which a
    compiler treats as a computation without effect that it may share
    between identical statements, move or run early. *)
Record Codegen : Type := mkCodegen {
  (* lines 73 and 75 are one instruction: [tbu1] is [tbu0] *)
  merge_mftbu : bool;
  (* line 106 runs before the guards of lines 103 and 105 *)
  pmccntr_first : bool;
  (* a statement moved out of the loop that calls [Now()]: it ran once,
     at the instant given, and every call uses that result *)
  hoisted : Access -> option nat
}.

(** Every statement where it is written. *)
Definition as_written : Codegen :=
  {| merge_mftbu := false;
     pmccntr_first := false;
     hoisted := fun _ => None |}.

(** The world in which an instruction runs at instant [t]. *)
Definition at_instant (t : nat) : World := {| time := t; trace := [] |}.

(** A plain [asm] statement: run here, or, when it was moved out, its
    result at the instant where it ran, with no access made here. *)
Definition plain {A : Type} (cg : Codegen) (a : Access) (m : M A) : M A :=
  match hoisted cg a with
  | Some t0 => fun w => (fst (m (at_instant t0)), w)
  | None => m
  end.

(* ------------------------------------------------------------------ *)
(** ** The bodies of [Now()] *)

(** [(high << 32) | low] on [uint64_t], converted to the [int64_t]
    return type. *)
Definition x86_64_combine (low high : Z) : Z :=
  to_int64 (Z.lor (shl_u64 high 32) low).

(** The ["=A"] constraint: the [int64_t] held in the pair EDX:EAX.  The
    MSVC [_asm rdtsc] body has no [return] statement and leaves the result
    in the same pair, which is where that compiler's calling convention
    looks for a 64-bit return value. *)
Definition edx_eax (eax edx : Z) : Z :=
  to_int64 (Z.lor (Z.shiftl edx 32) eax).

(** [tbl &= -static_cast<int64>(tbu0 == tbu1); return (tbu1 << 32) | tbl;]
    on [int64_t] variables. *)
Definition powerpc_combine (tbu0 tbl tbu1 : Z) : Z :=
  let tbl := Z.land tbl (neg_s64 (of_bool (tbu0 =? tbu1))) in
  Z.lor (shl_s64 tbu1 32) tbl.

(** [static_cast<int64>(pmccntr) * 64]. *)
Definition arm_scale (pmccntr : Z) : Z :=
  mul_s64 (to_int64 pmccntr) 64.

(** [static_cast<int64_t>(tv.tv_sec) * 1000000 + tv.tv_usec]. *)
Definition timeval_micros (tv : timeval) : Z :=
  add_s64 (mul_s64 (to_int64 (tv_sec tv)) 1000000) (tv_usec tv).

Section Bodies.

Variable cg : Codegen.
Variable hw : Hardware.

Definition Now_macosx : M Z :=
  t <- mach_absolute_time hw ;;
  ret (to_int64 t).

Definition Now_i386 : M Z :=
  '(eax, edx) <- rdtsc hw ;;
  ret (edx_eax eax edx).

Definition Now_x86_64 : M Z :=
  '(low, high) <- rdtsc hw ;;
  ret (x86_64_combine low high).

(** The PowerPC body: three plain [asm] statements, the first and the
    third identical. *)
Definition Now_powerpc : M Z :=
  tbu0 <- plain cg A_mftbu (mftbu hw) ;;
  tbl <- plain cg A_mftb (mftb hw) ;;
  tbu1 <- (if merge_mftbu cg then ret tbu0
           else plain cg A_mftbu (mftbu hw)) ;;
  ret (powerpc_combine tbu0 tbl tbu1).

Definition Now_sparc : M Z :=
  tick <- rd_tick hw ;;
  ret (to_int64 tick).

Definition Now_ia64 : M Z :=
  itc <- mov_ar_itc hw ;;
  ret (to_int64 itc).

Definition Now_msvc_ix86 : M Z :=
  '(eax, edx) <- rdtsc hw ;;
  ret (edx_eax eax edx).

(** [return __rdtsc();] with [uint64_t __rdtsc()]. *)
Definition Now_msvc : M Z :=
  '(eax, edx) <- rdtsc hw ;;
  ret (to_int64 (to_uint64 (Z.lor (Z.shiftl edx 32) eax))).

(** The three lines shared by the end of the ARM body and the MIPS
    body. *)
Definition Now_generic : M Z :=
  tv <- gettimeofday hw ;;
  ret (timeval_micros tv).

(** The read of the cycle counter of line 106, when it is run ahead of
    the guards. *)
Definition pmccntr_early : M (option Z) :=
  if pmccntr_first cg then
    pmccntr <- plain cg A_mrc_pmccntr (mrc_pmccntr hw) ;;
    ret (Some pmccntr)
  else ret None.

(** The same read at its place: already made, or made now. *)
Definition pmccntr_late (early : option Z) : M Z :=
  match early with
  | Some pmccntr => ret pmccntr
  | None => plain cg A_mrc_pmccntr (mrc_pmccntr hw)
  end.

(** The ARM body.  With [ARMV6] the two guards are tried first; a guard
    that fails falls out of its [if] to the shared tail.  The three [mrc]
    are plain [asm] statements. *)
Definition Now_arm (v6 : bool) : M Z :=
  if v6 then
    early <- pmccntr_early ;;
    pmuseren <- plain cg A_mrc_pmuseren (mrc_pmuseren hw) ;;
    if truthy (Z.land pmuseren 1) then
      pmcntenset <- plain cg A_mrc_pmcntenset (mrc_pmcntenset hw) ;;
      if truthy (Z.land pmcntenset 0x80000000) then
        pmccntr <- pmccntr_late early ;;
        ret (arm_scale pmccntr)
      else Now_generic
    else Now_generic
  else Now_generic.

Definition Now_mips : M Z := Now_generic.

Definition Now (b : Branch) : M Z :=
  match b with
  | BrMacOSX => Now_macosx
  | BrI386 => Now_i386
  | BrX86_64 => Now_x86_64
  | BrPowerPC => Now_powerpc
  | BrSparc => Now_sparc
  | BrIA64 => Now_ia64
  | BrMsvcIX86 => Now_msvc_ix86
  | BrMsvc => Now_msvc
  | BrArm v6 => Now_arm v6
  | BrMips => Now_mips
  end.

End Bodies.

(** What building the header yields: the [#error] text, or the one body
    that was selected, as the compiler generated it. *)
Definition build (cg : Codegen) (f : Flags) : string + (Hardware -> M Z) :=
  match select f with
  | Some b => inr (fun hw => Now cg hw b)
  | None => inl error_message
  end.

(** [n] calls one after the other, results in call order. *)
Fixpoint calls (m : M Z) (n : nat) : M (list Z) :=
  match n with
  | O => ret []
  | S n' => v <- m ;; vs <- calls m n' ;; ret (v :: vs)
  end.

(** The accesses a run added to the log. *)
Definition accesses {A : Type} (m : M A) (w : World) : list Access :=
  skipn (List.length (trace w)) (trace (snd (m w))).

Definition power_on : World := {| time := 0; trace := [] |}.

(* ------------------------------------------------------------------ *)
(** ** Raw counters *)

(** The counters and clocks the bodies draw on. *)
Inductive Source : Type :=
| SrcMach | SrcTSC | SrcTimebase | SrcTick | SrcITC | SrcPMCCNTR | SrcClock.

(** The reading of a source at an instant, in the source's own units: the
    unsigned content of the register, or the number of microseconds a
    [timeval] stands for. *)
Definition raw (hw : Hardware) (s : Source) (t : nat) : Z :=
  match s with
  | SrcMach => to_uint64 (mach_time hw t)
  | SrcTSC => to_uint64 (tsc hw t)
  | SrcTimebase => to_uint64 (timebase hw t)
  | SrcTick => to_uint64 (tick hw t)
  | SrcITC => to_uint64 (itc hw t)
  | SrcPMCCNTR => to_uint32 (pmccntr hw t)
  | SrcClock => tv_sec (clock hw t) * 1000000 + tv_usec (clock hw t)
  end.

Definition sources (b : Branch) : list Source :=
  match b with
  | BrMacOSX => [SrcMach]
  | BrI386 | BrX86_64 | BrMsvcIX86 | BrMsvc => [SrcTSC]
  | BrPowerPC => [SrcTimebase]
  | BrSparc => [SrcTick]
  | BrIA64 => [SrcITC]
  | BrArm true => [SrcPMCCNTR; SrcClock]
  | BrArm false | BrMips => [SrcClock]
  end.

Definition nondecreasing (c : nat -> Z) : Prop :=
  forall t t' : nat, (t <= t')%nat -> c t <= c t'.

Definition below_2_63 (c : nat -> Z) : Prop :=
  forall t : nat, 0 <= c t < 2 ^ 63.

(** Readings that an [int64_t] can hold; a register reading is never
    negative, a clock reading before the epoch is. *)
Definition within_int64 (c : nat -> Z) : Prop :=
  forall t : nat, int64_range (c t).

(** Well-formed clock readings and their order. *)
Definition timeval_wf (tv : timeval) : Prop :=
  0 <= tv_sec tv /\ 0 <= tv_usec tv < 1000000.

Definition timeval_lt (a b : timeval) : Prop :=
  tv_sec a < tv_sec b \/ (tv_sec a = tv_sec b /\ tv_usec a < tv_usec b).

Definition timeval_le (a b : timeval) : Prop :=
  timeval_lt a b \/ a = b.

(** The bodies that make a single read, with their source and their
    access. *)
Definition single_read (b : Branch) : option (Source * Access) :=
  match b with
  | BrMacOSX => Some (SrcMach, A_mach_absolute_time)
  | BrI386 | BrX86_64 | BrMsvcIX86 | BrMsvc => Some (SrcTSC, A_rdtsc)
  | BrSparc => Some (SrcTick, A_rd_tick)
  | BrIA64 => Some (SrcITC, A_mov_ar_itc)
  | BrPowerPC | BrArm _ | BrMips => None
  end.

(** The bodies whose reads stay where they are written: a function call
    ([mach_absolute_time], [gettimeofday]) or an [asm volatile] ([rdtsc]);
    the MSVC bodies use [_asm] and an intrinsic, which that compiler
    keeps in place.  The PowerPC, SPARC, IA-64 and ARMV6 bodies read
    through plain [asm]. *)
Definition reads_in_place (b : Branch) : bool :=
  match b with
  | BrMacOSX | BrI386 | BrX86_64 | BrMsvcIX86 | BrMsvc => true
  | BrArm false | BrMips => true
  | BrPowerPC | BrSparc | BrIA64 | BrArm true => false
  end.

(** User-mode access to the performance monitor: while bit 0 of the
    permission register is clear (the condition line 103 tests, "Allows
    reading perfmon counters for user mode code"), an [mrc] of the enable
    register or of the cycle counter is not allowed and the processor
    raises an undefined-instruction exception.  The permission register
    itself can always be read. *)
Definition traps (hw : Hardware) (t : nat) (a : Access) : bool :=
  match a with
  | A_mrc_pmcntenset | A_mrc_pmccntr => negb (Z.testbit (pmuseren hw t) 0)
  | _ => false
  end.

(** Whether some access of a run is made at an instant where it traps;
    the accesses of a run are made at successive instants. *)
Definition run_traps {A : Type} (hw : Hardware) (m : M A) (w : World) : bool :=
  existsb (fun ta => traps hw (fst ta) (snd ta))
          (combine (seq (time w) (List.length (accesses m w)))
                   (accesses m w)).

(* ------------------------------------------------------------------ *)
(** ** Concrete configurations and hardware *)

(** The two [mftbu] merged, everything else in place. *)
Definition mftbu_merged : Codegen :=
  {| merge_mftbu := true;
     pmccntr_first := false;
     hoisted := fun _ => None |}.

(** The cycle counter read ahead of its guards, everything else in
    place. *)
Definition pmccntr_ahead : Codegen :=
  {| merge_mftbu := false;
     pmccntr_first := true;
     hoisted := fun _ => None |}.

(** No symbol defined. *)
Definition no_flags : Flags :=
  {| OS_MACOSX := false; __i386__ := false; __x86_64__ := false;
     __amd64__ := false; __powerpc__ := false; __ppc__ := false;
     __sparc__ := false; __ia64__ := false; COMPILER_MSVC := false;
     _M_IX86 := false; ARMV3 := false; ARMV6 := false; __mips__ := false |}.

(** [ARMV6] alone: the nested test is never reached without [ARMV3]. *)
Definition armv6_only : Flags :=
  {| OS_MACOSX := false; __i386__ := false; __x86_64__ := false;
     __amd64__ := false; __powerpc__ := false; __ppc__ := false;
     __sparc__ := false; __ia64__ := false; COMPILER_MSVC := false;
     _M_IX86 := false; ARMV3 := false; ARMV6 := true; __mips__ := false |}.

Definition armv6_flags : Flags :=
  {| OS_MACOSX := false; __i386__ := false; __x86_64__ := false;
     __amd64__ := false; __powerpc__ := false; __ppc__ := false;
     __sparc__ := false; __ia64__ := false; COMPILER_MSVC := false;
     _M_IX86 := false; ARMV3 := true; ARMV6 := true; __mips__ := false |}.

Definition macosx_flags : Flags :=
  {| OS_MACOSX := true; __i386__ := false; __x86_64__ := true;
     __amd64__ := false; __powerpc__ := false; __ppc__ := false;
     __sparc__ := false; __ia64__ := false; COMPILER_MSVC := false;
     _M_IX86 := false; ARMV3 := false; ARMV6 := false; __mips__ := false |}.

Definition powerpc_flags : Flags :=
  {| OS_MACOSX := false; __i386__ := false; __x86_64__ := false;
     __amd64__ := false; __powerpc__ := true; __ppc__ := false;
     __sparc__ := false; __ia64__ := false; COMPILER_MSVC := false;
     _M_IX86 := false; ARMV3 := false; ARMV6 := false; __mips__ := false |}.

(** A count of instants that stops at one thousand, so that the counters
    built on it stay within their registers for ever. *)
Definition ticks (t : nat) : Z := Z.of_nat (Nat.min t 1000).

(** Hardware used to exercise the theorems: every counter advances by one
    per instant, the time base starts two ticks short of a carry into its
    upper half, both ARM guards are open. *)
Definition hw_demo : Hardware :=
  {| mach_time := fun t => 1000 + ticks t;
     tsc := fun t => 5 * 2 ^ 32 + 7 + ticks t;
     timebase := fun t => 2 ^ 32 - 2 + ticks t;
     tick := fun t => 40 + ticks t;
     itc := fun t => 50 + ticks t;
     pmuseren := fun _ => 1;
     pmcntenset := fun _ => 0x80000000;
     pmccntr := fun t => 100 + ticks t;
     clock := fun t => {| tv_sec := 12; tv_usec := 345678 + ticks t |} |}.

(** The same with user-mode access to the counters switched off. *)
Definition hw_no_user : Hardware :=
  {| mach_time := mach_time hw_demo;
     tsc := tsc hw_demo;
     timebase := timebase hw_demo;
     tick := tick hw_demo;
     itc := itc hw_demo;
     pmuseren := fun _ => 0;
     pmcntenset := pmcntenset hw_demo;
     pmccntr := pmccntr hw_demo;
     clock := clock hw_demo |}.

(** A time-stamp counter with bit 63 set, for instance right at [2^63]. *)
Definition hw_tsc_high : Hardware :=
  {| mach_time := fun _ => 0;
     tsc := fun _ => 2 ^ 63;
     timebase := fun _ => 0;
     tick := fun _ => 0;
     itc := fun _ => 0;
     pmuseren := fun _ => 0;
     pmcntenset := fun _ => 0;
     pmccntr := fun _ => 0;
     clock := fun _ => {| tv_sec := 0; tv_usec := 0 |} |}.

(** A time base that carries into its upper half at the fourth
    instant: [0x5FFFFFFFE], [0x5FFFFFFFE], [0x5FFFFFFFF], then
    [0x600000000] for ever. *)
Definition hw_tb_carry : Hardware :=
  {| mach_time := fun _ => 0;
     tsc := fun _ => 0;
     timebase := fun t =>
       match t with
       | 0%nat | 1%nat => 0x5FFFFFFFE
       | 2%nat => 0x5FFFFFFFF
       | _ => 0x600000000
       end;
     tick := fun _ => 0;
     itc := fun _ => 0;
     pmuseren := fun _ => 0;
     pmcntenset := fun _ => 0;
     pmccntr := fun _ => 0;
     clock := fun _ => {| tv_sec := 0; tv_usec := 0 |} |}.

(** A Mach counter that steps from [2^63 - 1] to [2^63] and stays. *)
Definition hw_sign_flip : Hardware :=
  {| mach_time := fun t => match t with O => 2 ^ 63 - 1 | S _ => 2 ^ 63 end;
     tsc := fun _ => 0;
     timebase := fun _ => 0;
     tick := fun _ => 0;
     itc := fun _ => 0;
     pmuseren := fun _ => 0;
     pmcntenset := fun _ => 0;
     pmccntr := fun _ => 0;
     clock := fun _ => {| tv_sec := 0; tv_usec := 0 |} |}.

(** An ARM system whose kernel closes user-mode access to the counters
    after the third instant; the cycle counter stands at [2^31] and the
    clock at one second. *)
Definition hw_access_revoked : Hardware :=
  {| mach_time := fun _ => 0;
     tsc := fun _ => 0;
     timebase := fun _ => 0;
     tick := fun _ => 0;
     itc := fun _ => 0;
     pmuseren := fun t => if (t <? 3)%nat then 1 else 0;
     pmcntenset := fun _ => 0x80000000;
     pmccntr := fun _ => 2 ^ 31;
     clock := fun _ => {| tv_sec := 1; tv_usec := 0 |} |}.

(** [COMPILER_MSVC] alone: a 64-bit MSVC build. *)
Definition msvc_x64_flags : Flags :=
  {| OS_MACOSX := false; __i386__ := false; __x86_64__ := false;
     __amd64__ := false; __powerpc__ := false; __ppc__ := false;
     __sparc__ := false; __ia64__ := false; COMPILER_MSVC := true;
     _M_IX86 := false; ARMV3 := false; ARMV6 := false; __mips__ := false |}.

(* ------------------------------------------------------------------ *)
(** ** The header outside [Now()] *)

(** Lines 26-28: [<mach/mach_time.h>] is included under
    [#if defined(OS_MACOSX)]. *)
Definition includes_mach_time (f : Flags) : bool := OS_MACOSX f.

(** Lines 36-39: [extern "C" uint64_t __rdtsc();] is declared under
    [#if defined(COMPILER_MSVC) && !defined(_M_IX86)]. *)
Definition declares_rdtsc (f : Flags) : bool :=
  COMPILER_MSVC f && negb (_M_IX86 f).

(** The same build with [ARMV6] defined or not. *)
Definition set_ARMV6 (v : bool) (f : Flags) : Flags :=
  {| OS_MACOSX := OS_MACOSX f; __i386__ := __i386__ f;
     __x86_64__ := __x86_64__ f; __amd64__ := __amd64__ f;
     __powerpc__ := __powerpc__ f; __ppc__ := __ppc__ f;
     __sparc__ := __sparc__ f; __ia64__ := __ia64__ f;
     COMPILER_MSVC := COMPILER_MSVC f; _M_IX86 := _M_IX86 f;
     ARMV3 := ARMV3 f; ARMV6 := v; __mips__ := __mips__ f |}.

(** The four bodies built on [rdtsc]. *)
Definition reads_tsc (b : Branch) : bool :=
  match b with
  | BrI386 | BrX86_64 | BrMsvcIX86 | BrMsvc => true
  | _ => false
  end.

(** The accesses to the ARM performance-monitor registers. *)
Definition is_pmu_access (a : Access) : bool :=
  match a with
  | A_mrc_pmuseren | A_mrc_pmcntenset | A_mrc_pmccntr => true
  | _ => false
  end.

(* ------------------------------------------------------------------ *)
(** ** Facts about fixed-width integers *)

Ltac int_unfold :=
  unfold arm_scale, timeval_micros, x86_64_combine, edx_eax,
    shl_u64, shl_s64, neg_s64, mul_s64, add_s64,
    to_int64, to_uint64, to_uint32, to_sint, to_uint,
    int64_range, uint64_range, uint32_range in *;
  simpl Z.sub in *;
  change (2 ^ 64) with 18446744073709551616 in *;
  change (2 ^ 63) with 9223372036854775808 in *;
  change (2 ^ 32) with 4294967296 in *;
  change (2 ^ 31) with 2147483648 in *.

Ltac int_arith := int_unfold; Z.div_mod_to_equations; lia.

Lemma to_int64_range (x : Z) : int64_range (to_int64 x).
Proof. int_arith. Qed.

Lemma to_uint64_range (x : Z) : uint64_range (to_uint64 x).
Proof. int_arith. Qed.

Lemma to_uint32_range (x : Z) : uint32_range (to_uint32 x).
Proof. int_arith. Qed.

Lemma to_int64_small (x : Z) : int64_range x -> to_int64 x = x.
Proof. int_arith. Qed.

Lemma to_uint64_small (x : Z) : uint64_range x -> to_uint64 x = x.
Proof. int_arith. Qed.

Lemma to_uint32_small (x : Z) : uint32_range x -> to_uint32 x = x.
Proof. int_arith. Qed.

Lemma to_uint64_to_int64 (x : Z) : to_uint64 (to_int64 x) = to_uint64 x.
Proof. int_arith. Qed.

Lemma to_int64_idem_add (x y : Z) :
  to_int64 (to_int64 x + y) = to_int64 (x + y).
Proof. int_arith. Qed.

Lemma to_int64_idem_mul (x k : Z) :
  to_int64 (to_int64 x * k) = to_int64 (x * k).
Proof.
  unfold to_int64, to_sint. simpl Z.sub.
  f_equal.
  rewrite <- (Z.add_mod_idemp_l (_ * k)), <- (Z.add_mod_idemp_l (x * k)) by lia.
  f_equal. f_equal.
  rewrite <- Z.mul_mod_idemp_l by lia.
  rewrite <- (Z.mul_mod_idemp_l x) by lia.
  f_equal. f_equal.
  rewrite Zminus_mod_idemp_l.
  f_equal. lia.
Qed.

(** A 32-bit low half and a shifted high half share no bit, so [|] adds
    them. *)
Lemma land_shifted_low (hi lo : Z) :
  uint32_range lo -> Z.land (hi * 2 ^ 32) lo = 0.
Proof.
  intros [Hlo Hhi]. apply Z.bits_inj'. intros n Hn.
  rewrite Z.land_spec, Z.bits_0.
  destruct (Z.ltb_spec n 32) as [Hlt | Hge].
  - rewrite Z.mul_pow2_bits_low by lia. reflexivity.
  - rewrite <- (Z.mod_small lo (2 ^ 32)) by lia.
    rewrite Z.mod_pow2_bits_high by lia. apply andb_false_r.
Qed.

Lemma lor_shifted_low (hi lo : Z) :
  uint32_range lo -> Z.lor (hi * 2 ^ 32) lo = hi * 2 ^ 32 + lo.
Proof.
  intros H. pose proof (land_shifted_low hi lo H) as Hd.
  rewrite <- (Z.lxor_lor _ _ Hd). symmetry. apply Z.add_nocarry_lxor, Hd.
Qed.

Lemma neg_s64_of_bool (b : bool) :
  neg_s64 (of_bool b) = if b then -1 else 0.
Proof. destruct b; reflexivity. Qed.

(** [int64_t << 32] of a zero-extended 32-bit value: the value lands in
    the upper half, read in two's complement. *)
Lemma shl_s64_32 (x : Z) :
  uint32_range x ->
  shl_s64 x 32 = (if x <? 2 ^ 31 then x else x - 2 ^ 32) * 2 ^ 32.
Proof.
  intros H. unfold shl_s64. rewrite Z.shiftl_mul_pow2 by lia.
  destruct (Z.ltb_spec x (2 ^ 31)); int_arith.
Qed.

Lemma shl_u64_32 (x : Z) :
  uint32_range x -> shl_u64 x 32 = x * 2 ^ 32.
Proof.
  intros H. unfold shl_u64. rewrite Z.shiftl_mul_pow2 by lia. int_arith.
Qed.

(* ------------------------------------------------------------------ *)
(** ** Running the bodies *)

Lemma skipn_length_app {A : Type} (l k : list A) :
  skipn (List.length l) (l ++ k) = k.
Proof. induction l as [| x l IH]; simpl; auto. Qed.

Lemma skipn_length_self {A : Type} (l : list A) :
  skipn (List.length l) l = [].
Proof. induction l as [| x l IH]; simpl; auto. Qed.

(** Unfolds a body applied to a world down to the pair it returns. *)
Ltac run_body :=
  unfold accesses, Now, Now_macosx, Now_i386, Now_x86_64, Now_powerpc,
    Now_sparc, Now_ia64, Now_msvc_ix86, Now_msvc, Now_mips, Now_generic,
    plain, mach_absolute_time, rdtsc, mftbu, mftb, rd_tick, mov_ar_itc,
    gettimeofday, bind, ret, access;
  cbn [fst snd time trace hoisted merge_mftbu as_written].

(** Written out, the PowerPC body makes three reads, upper, lower, upper,
    one instant apart, and hands them to [powerpc_combine]. *)
Lemma Now_powerpc_run (hw : Hardware) (w : World) :
  Now as_written hw BrPowerPC w =
  (powerpc_combine
     (to_uint32 (Z.shiftr (timebase hw (time w)) 32))
     (to_uint32 (timebase hw (S (time w))))
     (to_uint32 (Z.shiftr (timebase hw (S (S (time w)))) 32)),
   {| time := S (S (S (time w)));
      trace := trace w ++ [A_mftbu; A_mftb; A_mftbu] |}).
Proof. run_body. repeat rewrite <- app_assoc. reflexivity. Qed.

Lemma powerpc_combine_sum (tbu0 tbl tbu1 : Z) :
  uint32_range tbl -> uint32_range tbu1 ->
  powerpc_combine tbu0 tbl tbu1 =
  (if tbu1 <? 2 ^ 31 then tbu1 else tbu1 - 2 ^ 32) * 2 ^ 32
  + (if tbu0 =? tbu1 then tbl else 0).
Proof.
  intros Hl Hu. unfold powerpc_combine.
  rewrite neg_s64_of_bool, shl_s64_32 by assumption.
  destruct (tbu0 =? tbu1).
  - rewrite Z.land_m1_r. apply lor_shifted_low, Hl.
  - rewrite Z.land_0_r, Z.lor_0_r. lia.
Qed.

(** However the plain [asm] statements are placed, the PowerPC body
    returns the combination of an upper, a lower and an upper half of the
    time base; when the two [mftbu] are merged the two upper halves are
    one reading. *)
Lemma Now_powerpc_any (cg : Codegen) (hw : Hardware) (w : World) :
  exists t0 t1 t2 : nat,
    fst (Now cg hw BrPowerPC w) =
      powerpc_combine (to_uint32 (Z.shiftr (timebase hw t0) 32))
                      (to_uint32 (timebase hw t1))
                      (to_uint32 (Z.shiftr (timebase hw t2) 32))
    /\ (merge_mftbu cg = true -> t2 = t0).
Proof.
  unfold Now, Now_powerpc, plain, bind, ret, mftbu, mftb, access, at_instant.
  destruct (hoisted cg A_mftbu), (hoisted cg A_mftb), (merge_mftbu cg);
    cbn [fst snd time trace];
    do 3 eexists; (split; [reflexivity | first [reflexivity | discriminate]]).
Qed.

(** C2. PowerPC split read: for 32-bit reads [tbu0], [tbl], [tbu1] taken
    in the order upper, lower, upper, the result is [tbu1 << 32] when
    [tbu0 <> tbu1] and [(tbu1 << 32) | tbl] when [tbu0 = tbu1]; its lower
    half is then [0], respectively [tbl], and its upper half is [tbu1] in
    both cases.  The reads [5, 0xFFFFFFFF, 6] give [0x600000000] and the
    reads [5, 100, 5] give [(5 << 32) | 100].  Written out, the body of
    the PowerPC branch makes exactly these three reads and returns their
    combination; however its statements are placed, it returns the
    combination of an upper, a lower and an upper half. *)
Theorem powerpc_split_read (tbu0 tbl tbu1 : Z) :
  uint32_range tbu0 -> uint32_range tbl -> uint32_range tbu1 ->
  powerpc_combine tbu0 tbl tbu1 =
    (if tbu0 =? tbu1 then Z.lor (shl_s64 tbu1 32) tbl else shl_s64 tbu1 32)
  /\ to_uint32 (powerpc_combine tbu0 tbl tbu1) =
    (if tbu0 =? tbu1 then tbl else 0)
  /\ to_uint32 (Z.shiftr (powerpc_combine tbu0 tbl tbu1) 32) = tbu1
  /\ (tbu1 < 2 ^ 31 -> shl_s64 tbu1 32 = Z.shiftl tbu1 32)
  /\ powerpc_combine 5 0xFFFFFFFF 6 = 0x600000000
  /\ powerpc_combine 5 100 5 = Z.lor (Z.shiftl 5 32) 100
  /\ (forall (hw : Hardware) (w : World),
        fst (Now as_written hw BrPowerPC w) =
          powerpc_combine
            (fst (mftbu hw w))
            (fst (mftb hw (snd (mftbu hw w))))
            (fst (mftbu hw (snd (mftb hw (snd (mftbu hw w))))))
        /\ accesses (Now as_written hw BrPowerPC) w
           = [A_mftbu; A_mftb; A_mftbu])
  /\ (forall (cg : Codegen) (hw : Hardware) (w : World),
      exists t0 t1 t2 : nat,
        fst (Now cg hw BrPowerPC w) =
          powerpc_combine (fst (mftbu hw (at_instant t0)))
                          (fst (mftb hw (at_instant t1)))
                          (fst (mftbu hw (at_instant t2)))
        /\ (merge_mftbu cg = true -> t2 = t0)).
Proof.
  intros H0 Hl Hu.
  pose proof (powerpc_combine_sum tbu0 tbl tbu1 Hl Hu) as Hsum.
  split; [| split; [| split; [| split; [| split; [| split; [| split]]]]]].
  - unfold powerpc_combine. rewrite neg_s64_of_bool.
    destruct (tbu0 =? tbu1).
    + now rewrite Z.land_m1_r.
    + now rewrite Z.land_0_r, Z.lor_0_r.
  - rewrite Hsum.
    destruct (tbu0 =? tbu1); destruct (tbu1 <? 2 ^ 31); int_arith.
  - rewrite Hsum, Z.shiftr_div_pow2 by lia.
    destruct (tbu0 =? tbu1); destruct (Z.ltb_spec tbu1 (2 ^ 31)); int_arith.
  - intros Hsmall. rewrite shl_s64_32 by assumption.
    rewrite Z.shiftl_mul_pow2 by lia.
    destruct (Z.ltb_spec tbu1 (2 ^ 31)); lia.
  - reflexivity.
  - reflexivity.
  - intros hw w. split.
    + rewrite Now_powerpc_run. reflexivity.
    + unfold accesses. rewrite Now_powerpc_run. cbn [snd trace].
      apply skipn_length_app.
  - intros cg hw w. apply Now_powerpc_any.
Qed.

Lemma powerpc_split_read_witness :
  powerpc_combine 5 7 6 = shl_s64 6 32 /\
  powerpc_combine 4 9 4 = Z.lor (shl_s64 4 32) 9.
Proof.
  split.
  - exact (proj1 (powerpc_split_read 5 7 6
                    ltac:(unfold uint32_range; lia)
                    ltac:(unfold uint32_range; lia)
                    ltac:(unfold uint32_range; lia))).
  - exact (proj1 (powerpc_split_read 4 9 4
                    ltac:(unfold uint32_range; lia)
                    ltac:(unfold uint32_range; lia)
                    ltac:(unfold uint32_range; lia))).
Defined.

(* ------------------------------------------------------------------ *)
(** ** The 64-bit x86 branch *)

Lemma Now_x86_64_run (cg : Codegen) (hw : Hardware) (w : World) :
  Now cg hw BrX86_64 w =
  (x86_64_combine (to_uint32 (tsc hw (time w)))
                  (to_uint32 (Z.shiftr (tsc hw (time w)) 32)),
   {| time := S (time w); trace := trace w ++ [A_rdtsc] |}).
Proof. reflexivity. Qed.

Lemma x86_64_combine_sum (low high : Z) :
  uint32_range low -> uint32_range high ->
  x86_64_combine low high = to_int64 (high * 2 ^ 32 + low).
Proof.
  intros Hl Hh. unfold x86_64_combine.
  now rewrite shl_u64_32, lor_shifted_low.
Qed.

(** C5 as stated fails when the high register has its top bit set: with
    [low = 0] and [high = 0x80000000] the expression [(high << 32) | low]
    is [2^63], and the [int64_t] that [Now()] returns is [-2^63]. *)
Lemma x86_64_combine_sign_counterexample :
  uint32_range 0 /\ uint32_range 0x80000000 /\
  Z.lor (Z.shiftl 0x80000000 32) 0 = 0x80000000 * 2 ^ 32 + 0 /\
  x86_64_combine 0 0x80000000 = - 2 ^ 63 /\
  x86_64_combine 0 0x80000000 <> 0x80000000 * 2 ^ 32 + 0 /\
  fst (rdtsc hw_tsc_high power_on) = (0, 0x80000000) /\
  fst (Now as_written hw_tsc_high BrX86_64 power_on) = - 2 ^ 63.
Proof.
  repeat split; try (unfold uint32_range; lia); vm_compute; congruence.
Qed.

(** C5, amended. On the 64-bit x86 branch, for every pair of 32-bit
    register values [low], [high]: the 64 bits returned are those of
    [(high << 32) | low = high * 2^32 + low], low half [low] and high half
    [high]; read as the [int64_t] that [Now()] returns, the value is
    [high * 2^32 + low] when [high < 2^31] and [high * 2^32 + low - 2^64]
    otherwise.  The body reads the pair with one [rdtsc]. *)
Theorem x86_64_combine_halves (low high : Z) :
  uint32_range low -> uint32_range high ->
  to_uint64 (x86_64_combine low high) = Z.lor (Z.shiftl high 32) low
  /\ Z.lor (Z.shiftl high 32) low = high * 2 ^ 32 + low
  /\ to_uint32 (x86_64_combine low high) = low
  /\ to_uint32 (Z.shiftr (x86_64_combine low high) 32) = high
  /\ x86_64_combine low high =
       (if high <? 2 ^ 31 then high * 2 ^ 32 + low
        else high * 2 ^ 32 + low - 2 ^ 64)
  /\ (forall (cg : Codegen) (hw : Hardware) (w : World),
        fst (Now cg hw BrX86_64 w) =
          x86_64_combine (fst (fst (rdtsc hw w))) (snd (fst (rdtsc hw w)))
        /\ accesses (Now cg hw BrX86_64) w = [A_rdtsc]).
Proof.
  intros Hl Hh.
  pose proof (x86_64_combine_sum low high Hl Hh) as Hsum.
  assert (Hlor : Z.lor (Z.shiftl high 32) low = high * 2 ^ 32 + low).
  { rewrite Z.shiftl_mul_pow2 by lia. now apply lor_shifted_low. }
  split; [| split; [| split; [| split; [| split]]]].
  - rewrite Hlor, Hsum, to_uint64_to_int64. int_arith.
  - exact Hlor.
  - rewrite Hsum. int_arith.
  - rewrite Hsum, Z.shiftr_div_pow2 by lia. int_arith.
  - rewrite Hsum. destruct (Z.ltb_spec high (2 ^ 31)); int_arith.
  - intros cg hw w. split.
    + reflexivity.
    + unfold accesses. rewrite Now_x86_64_run. cbn [snd trace].
      apply skipn_length_app.
Qed.

Lemma x86_64_combine_halves_witness :
  x86_64_combine 7 3 = 3 * 2 ^ 32 + 7 /\
  x86_64_combine 7 0xFFFFFFFF = 0xFFFFFFFF * 2 ^ 32 + 7 - 2 ^ 64.
Proof.
  split.
  - exact (proj1 (proj2 (proj2 (proj2 (proj2
      (x86_64_combine_halves 7 3
         ltac:(unfold uint32_range; lia)
         ltac:(unfold uint32_range; lia))))))).
  - exact (proj1 (proj2 (proj2 (proj2 (proj2
      (x86_64_combine_halves 7 0xFFFFFFFF
         ltac:(unfold uint32_range; lia)
         ltac:(unfold uint32_range; lia))))))).
Defined.

(* ------------------------------------------------------------------ *)
(** ** The generic tail: [gettimeofday] *)

Lemma timeval_micros_wrap (tv : timeval) :
  timeval_micros tv = to_int64 (tv_sec tv * 1000000 + tv_usec tv).
Proof.
  unfold timeval_micros, add_s64, mul_s64.
  now rewrite to_int64_idem_mul, to_int64_idem_add.
Qed.

Lemma timeval_micros_exact (tv : timeval) :
  int64_range (tv_sec tv * 1000000 + tv_usec tv) ->
  timeval_micros tv = tv_sec tv * 1000000 + tv_usec tv.
Proof.
  intros H. rewrite timeval_micros_wrap. now apply to_int64_small.
Qed.

Lemma Now_generic_run (hw : Hardware) (w : World) :
  Now_generic hw w =
  (timeval_micros (clock hw (time w)),
   {| time := S (time w); trace := trace w ++ [A_gettimeofday] |}).
Proof. reflexivity. Qed.

(* ------------------------------------------------------------------ *)
(** ** The ARM branch *)

Lemma truthy_land_1 (x : Z) : truthy (Z.land x 1) = Z.testbit x 0.
Proof.
  unfold truthy. change 1 with (Z.ones 1). rewrite Z.land_ones by lia.
  pose proof (Z.bit0_mod x) as H. change (2 ^ 1) with 2.
  destruct (Z.testbit x 0); simpl in H; rewrite <- H; reflexivity.
Qed.

Lemma truthy_land_bit31 (x : Z) :
  truthy (Z.land x 0x80000000) = Z.testbit x 31.
Proof.
  assert (H : Z.land x (2 ^ 31) = if Z.testbit x 31 then 2 ^ 31 else 0).
  { apply Z.bits_inj'. intros n Hn.
    rewrite Z.land_spec, Z.pow2_bits_eqb by lia.
    destruct (Z.testbit x 31) eqn:E.
    - rewrite Z.pow2_bits_eqb by lia.
      destruct (Z.eqb_spec 31 n) as [<- | Hne].
      + now rewrite E.
      + apply andb_false_r.
    - rewrite Z.bits_0.
      destruct (Z.eqb_spec 31 n) as [<- | Hne].
      + now rewrite E.
      + apply andb_false_r. }
  unfold truthy. change 0x80000000 with (2 ^ 31). rewrite H.
  destruct (Z.testbit x 31); reflexivity.
Qed.

Lemma arm_scale_exact (pmccntr : Z) :
  uint32_range pmccntr -> arm_scale pmccntr = pmccntr * 64.
Proof. int_arith. Qed.

Ltac unfold_arm :=
  unfold Now, Now_arm, pmccntr_early, pmccntr_late, plain, Now_generic,
    bind, ret, mrc_pmuseren, mrc_pmcntenset, mrc_pmccntr, gettimeofday,
    access, at_instant.

(** The accesses of a run whose final log is written out. *)
Ltac eval_accesses :=
  unfold accesses; cbn [fst snd time trace];
  repeat rewrite <- app_assoc; cbn [app];
  first [rewrite skipn_length_app | rewrite skipn_length_self].

(** The ARMV6 body written out, path by path, in terms of the two guard
    bits. *)
Lemma Now_arm_v6_run (hw : Hardware) (w : World) :
  Now as_written hw (BrArm true) w =
  if Z.testbit (to_uint32 (pmuseren hw (time w))) 0 then
    if Z.testbit (to_uint32 (pmcntenset hw (S (time w)))) 31 then
      (to_uint32 (pmccntr hw (S (S (time w)))) * 64,
       {| time := S (S (S (time w)));
          trace := trace w ++
                   [A_mrc_pmuseren; A_mrc_pmcntenset; A_mrc_pmccntr] |})
    else
      (timeval_micros (clock hw (S (S (time w)))),
       {| time := S (S (S (time w)));
          trace := trace w ++
                   [A_mrc_pmuseren; A_mrc_pmcntenset; A_gettimeofday] |})
  else
    (timeval_micros (clock hw (S (time w))),
     {| time := S (S (time w));
        trace := trace w ++ [A_mrc_pmuseren; A_gettimeofday] |}).
Proof.
  unfold_arm.
  cbn [as_written pmccntr_first hoisted fst snd time trace].
  rewrite truthy_land_1.
  destruct (Z.testbit (to_uint32 (pmuseren hw (time w))) 0).
  - cbn [fst snd time trace]. rewrite truthy_land_bit31.
    destruct (Z.testbit (to_uint32 (pmcntenset hw (S (time w)))) 31).
    + cbn [fst snd time trace].
      rewrite arm_scale_exact by apply to_uint32_range.
      repeat rewrite <- app_assoc. reflexivity.
    + cbn [fst snd time trace]. repeat rewrite <- app_assoc. reflexivity.
  - cbn [fst snd time trace]. repeat rewrite <- app_assoc. reflexivity.
Qed.

(** However the plain [asm] statements are placed, the ARMV6 body
    returns either the scaled content of the cycle counter at some
    instant, without a call to the clock, or the value of the generic
    tail for the clock reading it takes. *)
Lemma Now_arm_v6_any (cg : Codegen) (hw : Hardware) (w : World) :
  (exists t : nat,
      fst (Now cg hw (BrArm true) w) = arm_scale (to_uint32 (pmccntr hw t))
      /\ ~ In A_gettimeofday (accesses (Now cg hw (BrArm true)) w))
  \/
  (exists t : nat,
      (time w <= t)%nat
      /\ fst (Now cg hw (BrArm true) w) = timeval_micros (clock hw t)
      /\ In A_gettimeofday (accesses (Now cg hw (BrArm true)) w)).
Proof.
  unfold accesses. unfold_arm.
  destruct (pmccntr_first cg), (hoisted cg A_mrc_pmccntr),
    (hoisted cg A_mrc_pmuseren), (hoisted cg A_mrc_pmcntenset);
    cbn [fst snd time trace];
    repeat match goal with
           | |- context [truthy ?x] => destruct (truthy x)
           end;
    cbn [fst snd time trace];
    repeat rewrite <- app_assoc; cbn [app];
    (first [rewrite skipn_length_app | rewrite skipn_length_self]);
    first [ left; eexists; split; [reflexivity |];
            simpl; intuition discriminate
          | right; eexists; split; [| split; [reflexivity |]];
            [lia | simpl; tauto] ].
Qed.

Lemma Now_arm_v3_run (cg : Codegen) (hw : Hardware) (w : World) :
  Now cg hw (BrArm false) w = Now_generic hw w.
Proof. reflexivity. Qed.

Lemma Now_mips_run (cg : Codegen) (hw : Hardware) (w : World) :
  Now cg hw BrMips w = Now_generic hw w.
Proof. reflexivity. Qed.

(** Written out, the ARMV6 body does what its guards say: when bit 0 of
    the permission register and bit 31 of the enable register are both
    set it reads the cycle counter and returns [pmccntr * 64]; when bit 0
    is clear it returns the value of the generic tail after one register
    read, and when bit 0 is set and bit 31 clear after two; the cycle
    counter register is read if and only if both guards pass. *)
Lemma arm_guarded_read_as_written (hw : Hardware) (w : World) :
  let r1 := mrc_pmuseren hw w in
  let r2 := mrc_pmcntenset hw (snd r1) in
  let r3 := mrc_pmccntr hw (snd r2) in
  let user_ok := Z.testbit (fst r1) 0 in
  let counting := Z.testbit (fst r2) 31 in
  let micros (tv : timeval) := to_int64 (tv_sec tv * 1000000 + tv_usec tv) in
  let now := Now as_written hw (BrArm true) in
  (user_ok = true /\ counting = true ->
     fst (now w) = fst r3 * 64 /\
     accesses now w = [A_mrc_pmuseren; A_mrc_pmcntenset; A_mrc_pmccntr])
  /\ (user_ok = false ->
     fst (now w) = fst (Now_generic hw (snd r1)) /\
     fst (now w) = micros (fst (gettimeofday hw (snd r1))) /\
     accesses now w = [A_mrc_pmuseren; A_gettimeofday])
  /\ (user_ok = true /\ counting = false ->
     fst (now w) = fst (Now_generic hw (snd r2)) /\
     fst (now w) = micros (fst (gettimeofday hw (snd r2))) /\
     accesses now w = [A_mrc_pmuseren; A_mrc_pmcntenset; A_gettimeofday])
  /\ (In A_mrc_pmccntr (accesses now w) <->
      user_ok = true /\ counting = true).
Proof.
  cbv zeta. unfold accesses. rewrite Now_arm_v6_run.
  unfold mrc_pmuseren, mrc_pmcntenset, mrc_pmccntr, gettimeofday, access.
  cbn [fst snd time trace]. rewrite !Now_generic_run. cbn [fst].
  rewrite <- !timeval_micros_wrap.
  destruct (Z.testbit (to_uint32 (pmuseren hw (time w))) 0);
    [destruct (Z.testbit (to_uint32 (pmcntenset hw (S (time w)))) 31) |];
    cbn [fst snd trace]; rewrite skipn_length_app.
  - (* both guards pass *)
    simpl. intuition discriminate.
  - (* the counter is not enabled *)
    simpl. intuition discriminate.
  - (* no user-mode access *)
    simpl. intuition discriminate.
Qed.



(** C6. Generic fallback: for every clock reading [tv] the value returned
    is [tv_sec * 1,000,000 + tv_usec] as a 64-bit signed integer, and is
    that number itself whenever it fits in one.  The MIPS body and the ARM
    body without ARMV6 return it for the reading taken at once; the ARMV6
    body, written out, returns it for the reading taken after the guard
    that failed, and, however its statements are placed, for the reading
    it takes whenever it calls the clock. *)
Theorem generic_fallback_value (cg : Codegen) (hw : Hardware) (w : World) :
  let micros (t : nat) := raw hw SrcClock t in
  (forall tv : timeval,
      timeval_micros tv = to_int64 (tv_sec tv * 1000000 + tv_usec tv) /\
      (int64_range (tv_sec tv * 1000000 + tv_usec tv) ->
       timeval_micros tv = tv_sec tv * 1000000 + tv_usec tv))
  /\ Now cg hw BrMips w =
       (to_int64 (micros (time w)),
        {| time := S (time w); trace := trace w ++ [A_gettimeofday] |})
  /\ Now cg hw (BrArm false) w =
       (to_int64 (micros (time w)),
        {| time := S (time w); trace := trace w ++ [A_gettimeofday] |})
  /\ (Z.testbit (fst (mrc_pmuseren hw w)) 0 = false ->
      fst (Now as_written hw (BrArm true) w) = to_int64 (micros (S (time w))))
  /\ (Z.testbit (fst (mrc_pmuseren hw w)) 0 = true ->
      Z.testbit (fst (mrc_pmcntenset hw (snd (mrc_pmuseren hw w)))) 31
        = false ->
      fst (Now as_written hw (BrArm true) w)
        = to_int64 (micros (S (S (time w)))))
  /\ (In A_gettimeofday (accesses (Now cg hw (BrArm true)) w) ->
      exists t : nat,
        (time w <= t)%nat /\
        fst (Now cg hw (BrArm true) w) = to_int64 (micros t)).
Proof.
  cbv zeta. unfold raw.
  split; [| split; [| split; [| split; [| split]]]].
  - intros tv. split.
    + apply timeval_micros_wrap.
    + apply timeval_micros_exact.
  - rewrite Now_mips_run, Now_generic_run. now rewrite timeval_micros_wrap.
  - rewrite Now_arm_v3_run, Now_generic_run. now rewrite timeval_micros_wrap.
  - unfold mrc_pmuseren, access. cbn [fst]. intros H0.
    rewrite Now_arm_v6_run, H0. cbn [fst]. apply timeval_micros_wrap.
  - unfold mrc_pmuseren, mrc_pmcntenset, access. cbn [fst snd time].
    intros H0 H31.
    rewrite Now_arm_v6_run, H0, H31. cbn [fst]. apply timeval_micros_wrap.
  - intros Hin.
    destruct (Now_arm_v6_any cg hw w) as [[t [_ Hno]] | [t [Ht [Hv _]]]].
    + contradiction.
    + exists t. split; [exact Ht |].
      rewrite Hv. apply timeval_micros_wrap.
Qed.

Lemma generic_fallback_value_witness :
  timeval_micros {| tv_sec := 12; tv_usec := 345678 |} = 12345678 /\
  fst (Now as_written hw_no_user (BrArm true) power_on) = 12345679.
Proof.
  split.
  - exact (proj2 (proj1 (generic_fallback_value as_written hw_demo power_on)
                    {| tv_sec := 12; tv_usec := 345678 |})
             ltac:(unfold int64_range; simpl; lia)).
  - exact (proj1 (proj2 (proj2 (proj2
             (generic_fallback_value as_written hw_no_user power_on))))
             eq_refl).
Defined.

(** C9. ARM performance-monitor branch: for every 32-bit counter value
    the product [static_cast<int64>(pmccntr) * 64] does not overflow; it
    is a multiple of 64 between [0] and [(2^32 - 1) * 64], which is below
    [2^38].  The value follows the 32-bit register: it is the same for
    cycle counts [2^32] apart, drops from [(2^32 - 1) * 64] to [0] when the
    register wraps, and is smaller whenever the register reads smaller. *)
Theorem arm_scale_bounds (pmccntr : Z) :
  uint32_range pmccntr ->
  arm_scale pmccntr = pmccntr * 64
  /\ int64_range (pmccntr * 64)
  /\ 0 <= arm_scale pmccntr <= (2 ^ 32 - 1) * 64
  /\ (2 ^ 32 - 1) * 64 < 2 ^ 38
  /\ arm_scale pmccntr mod 64 = 0
  /\ (forall cycles : Z,
        arm_scale (to_uint32 (cycles + 2 ^ 32)) = arm_scale (to_uint32 cycles))
  /\ arm_scale (to_uint32 (2 ^ 32 - 1)) = (2 ^ 32 - 1) * 64
  /\ arm_scale (to_uint32 (2 ^ 32)) = 0
  /\ (forall later : Z,
        uint32_range later -> later < pmccntr ->
        arm_scale later < arm_scale pmccntr)
  /\ (forall (hw : Hardware) (w : World),
        In A_mrc_pmccntr (accesses (Now as_written hw (BrArm true)) w) ->
        fst (Now as_written hw (BrArm true) w) =
          arm_scale (raw hw SrcPMCCNTR (S (S (time w))))).
Proof.
  intros H.
  split; [| split; [| split; [| split; [| split; [| split;
    [| split; [| split; [| split]]]]]]]].
  - now apply arm_scale_exact.
  - int_arith.
  - int_arith.
  - reflexivity.
  - int_arith.
  - intros cycles. f_equal. int_arith.
  - reflexivity.
  - reflexivity.
  - intros later Hl Hlt. int_arith.
  - intros hw w. unfold accesses. rewrite Now_arm_v6_run.
    destruct (Z.testbit (to_uint32 (pmuseren hw (time w))) 0);
      [destruct (Z.testbit (to_uint32 (pmcntenset hw (S (time w)))) 31) |];
      cbn [fst snd trace]; rewrite skipn_length_app; simpl;
      try (intuition discriminate).
    intros _. symmetry. apply arm_scale_exact, to_uint32_range.
Qed.

Lemma arm_scale_bounds_witness :
  arm_scale 0xFFFFFFFF = 0xFFFFFFFF * 64 /\ arm_scale 3 < arm_scale 0xFFFFFFFF.
Proof.
  pose (H := arm_scale_bounds 0xFFFFFFFF ltac:(unfold uint32_range; lia)).
  split.
  - exact (proj1 H).
  - exact (proj1 (proj2 (proj2 (proj2 (proj2 (proj2 (proj2 (proj2
             (proj2 H)))))))) 3
             ltac:(unfold uint32_range; lia) ltac:(lia)).
Defined.

(* ------------------------------------------------------------------ *)
(** ** Order of the values of the generic tail *)

(** C10 as stated fails for well-formed readings whose microsecond count
    does not fit in the [int64_t] result.  The readings [(0, 0)] and
    [(2^58, 0)] are distinct and both return [0]; the reading
    [(9223372036854, 775807)], which stands for [2^63 - 1] microseconds,
    precedes [(9223372036854, 775808)] and returns more. *)
Lemma generic_order_counterexample :
  let a := {| tv_sec := 0; tv_usec := 0 |} in
  let b := {| tv_sec := 2 ^ 58; tv_usec := 0 |} in
  let c := {| tv_sec := 9223372036854; tv_usec := 775807 |} in
  let d := {| tv_sec := 9223372036854; tv_usec := 775808 |} in
  (timeval_wf a /\ timeval_wf b /\ a <> b /\
   timeval_micros a = 0 /\ timeval_micros b = 0)
  /\ (timeval_wf c /\ timeval_wf d /\ timeval_lt c d /\
      timeval_micros c = 2 ^ 63 - 1 /\ timeval_micros d = - 2 ^ 63).
Proof.
  cbv zeta. unfold timeval_wf, timeval_lt. cbn [tv_sec tv_usec].
  repeat split; try lia; try discriminate; vm_compute; reflexivity.
Qed.

(** C10, amended. On well-formed clock readings ([tv_sec >= 0] and
    [0 <= tv_usec < 1,000,000]) the mapping to [tv_sec * 1,000,000 +
    tv_usec] is strictly increasing for the lexicographic order and
    injective; for readings whose microsecond count is below [2^63] the
    values returned by the generic tail are these numbers, so they are
    distinct for distinct readings and keep the order of the clock. *)
Theorem generic_order_preserving (a b : timeval) :
  timeval_wf a -> timeval_wf b ->
  let micros (tv : timeval) := tv_sec tv * 1000000 + tv_usec tv in
  (timeval_lt a b -> micros a < micros b)
  /\ (micros a = micros b -> a = b)
  /\ (micros a < 2 ^ 63 -> micros b < 2 ^ 63 ->
      timeval_micros a = micros a
      /\ timeval_micros b = micros b
      /\ (timeval_lt a b -> timeval_micros a < timeval_micros b)
      /\ (timeval_le a b -> timeval_micros a <= timeval_micros b)
      /\ (a <> b -> timeval_micros a <> timeval_micros b)).
Proof.
  intros [Hsa Hua] [Hsb Hub]. cbv zeta.
  assert (Hlt : timeval_lt a b ->
                tv_sec a * 1000000 + tv_usec a < tv_sec b * 1000000 + tv_usec b).
  { unfold timeval_lt. lia. }
  assert (Hinj : tv_sec a * 1000000 + tv_usec a
                 = tv_sec b * 1000000 + tv_usec b -> a = b).
  { intros He. destruct a as [sa ua], b as [sb ub]. cbn [tv_sec tv_usec] in *.
    assert (sa = sb) by lia. assert (ua = ub) by lia. now subst. }
  split; [exact Hlt | split; [exact Hinj |]].
  intros Ha Hb.
  rewrite (timeval_micros_exact a), (timeval_micros_exact b)
    by (unfold int64_range; lia).
  repeat split.
  - exact Hlt.
  - intros [Hab | ->]; [apply Hlt in Hab; lia | lia].
  - intros Hne He. apply Hne, Hinj, He.
Qed.

Lemma generic_order_preserving_witness :
  timeval_micros {| tv_sec := 12; tv_usec := 999999 |}
  < timeval_micros {| tv_sec := 13; tv_usec := 0 |}.
Proof.
  refine (proj1 (proj2 (proj2 (proj2 (proj2
    (generic_order_preserving
       {| tv_sec := 12; tv_usec := 999999 |} {| tv_sec := 13; tv_usec := 0 |}
       _ _)) _ _))) _).
  - unfold timeval_wf; simpl; lia.
  - unfold timeval_wf; simpl; lia.
  - simpl; lia.
  - simpl; lia.
  - unfold timeval_lt; simpl; lia.
Defined.

(* ------------------------------------------------------------------ *)
(** ** The preprocessor dispatch *)

Lemma select_guard (f : Flags) (b : Branch) :
  select f = Some b -> guard f b = true.
Proof.
  unfold select.
  destruct (OS_MACOSX f) eqn:E1; [intros [= <-]; exact E1 |].
  destruct (__i386__ f) eqn:E2; [intros [= <-]; exact E2 |].
  destruct (__x86_64__ f || __amd64__ f) eqn:E3; [intros [= <-]; exact E3 |].
  destruct (__powerpc__ f || __ppc__ f) eqn:E4; [intros [= <-]; exact E4 |].
  destruct (__sparc__ f) eqn:E5; [intros [= <-]; exact E5 |].
  destruct (__ia64__ f) eqn:E6; [intros [= <-]; exact E6 |].
  destruct (COMPILER_MSVC f && _M_IX86 f) eqn:E7; [intros [= <-]; exact E7 |].
  destruct (COMPILER_MSVC f) eqn:E8; [intros [= <-]; exact E8 |].
  destruct (ARMV3 f) eqn:E9.
  - intros [= <-]. simpl. rewrite E9. now destruct (ARMV6 f).
  - destruct (__mips__ f) eqn:E10; [intros [= <-]; exact E10 | discriminate].
Qed.

Lemma recognized_select (f : Flags) :
  recognized f = true <-> exists b, select f = Some b.
Proof.
  split.
  - unfold recognized, all_branches, select. cbn [existsb guard].
    destruct (OS_MACOSX f); simpl; [eauto |].
    destruct (__i386__ f); simpl; [eauto |].
    destruct (__x86_64__ f); simpl; [eauto |].
    destruct (__amd64__ f); simpl; [eauto |].
    destruct (__powerpc__ f); simpl; [eauto |].
    destruct (__ppc__ f); simpl; [eauto |].
    destruct (__sparc__ f); simpl; [eauto |].
    destruct (__ia64__ f); simpl; [eauto |].
    destruct (COMPILER_MSVC f); simpl; [destruct (_M_IX86 f); eauto |].
    destruct (ARMV3 f); simpl; [eauto |].
    destruct (__mips__ f); simpl; [eauto | discriminate].
  - intros [b Hb]. apply select_guard in Hb.
    unfold recognized. apply existsb_exists. exists b. split; [| exact Hb].
    unfold all_branches. destruct b as [| | | | | | | | [|] |]; simpl; tauto.
Qed.

(** C8. A flag assignment that matches no guard yields the [#error] text
    and no body; conversely a body is produced only for a recognized
    assignment, and it is the body of the first guard that holds.  There
    is no arm of the chain that returns a default value. *)
Theorem unrecognized_is_build_error (cg : Codegen) (f : Flags) :
  recognized f = false ->
  build cg f = inl error_message
  /\ error_message <> EmptyString
  /\ select f = None
  /\ (forall body : Hardware -> M Z, build cg f <> inr body)
  /\ (forall (f' : Flags) (body : Hardware -> M Z),
        build cg f' = inr body ->
        recognized f' = true /\
        exists b : Branch,
          guard f' b = true /\ select f' = Some b /\
          body = (fun hw => Now cg hw b)).
Proof.
  intros Hun.
  assert (Hnone : select f = None).
  { destruct (select f) as [b |] eqn:E; [| reflexivity].
    assert (recognized f = true) by (apply recognized_select; eauto).
    congruence. }
  unfold build. rewrite Hnone.
  split; [reflexivity |].
  split; [discriminate |].
  split; [reflexivity |].
  split; [discriminate |].
  intros f' body. destruct (select f') as [b |] eqn:E; [| discriminate].
  intros [= <-]. split.
  - apply recognized_select. eauto.
  - exists b. split; [now apply select_guard | split; reflexivity].
Qed.

Lemma unrecognized_is_build_error_witness :
  build as_written no_flags = inl error_message /\
  build as_written armv6_only = inl error_message.
Proof.
  split.
  - exact (proj1 (unrecognized_is_build_error as_written no_flags eq_refl)).
  - exact (proj1 (unrecognized_is_build_error as_written armv6_only
                    eq_refl)).
Defined.

(* ------------------------------------------------------------------ *)
(** ** What each body returns, in terms of the raw counters *)

Lemma halves_join (x : Z) :
  to_uint32 (Z.shiftr x 32) * 2 ^ 32 + to_uint32 x = to_uint64 x.
Proof. rewrite Z.shiftr_div_pow2 by lia. int_arith. Qed.

Lemma lor_halves (x : Z) :
  Z.lor (Z.shiftl (to_uint32 (Z.shiftr x 32)) 32) (to_uint32 x) = to_uint64 x.
Proof.
  rewrite Z.shiftl_mul_pow2 by lia.
  rewrite lor_shifted_low by apply to_uint32_range.
  apply halves_join.
Qed.

Lemma single_read_run (cg : Codegen) (hw : Hardware) (w : World)
      (b : Branch) (s : Source) (a : Access) :
  single_read b = Some (s, a) ->
  Now cg hw b w =
  (to_int64 (raw hw s (time w)),
   {| time := S (time w); trace := trace w ++ [a] |}).
Proof.
  destruct b; intros [= <- <-]; run_body; unfold raw; f_equal.
  - unfold edx_eax. now rewrite lor_halves.
  - rewrite x86_64_combine_sum by apply to_uint32_range.
    now rewrite halves_join.
  - unfold edx_eax. now rewrite lor_halves.
  - now rewrite lor_halves, to_uint64_small by apply to_uint64_range.
Qed.

Lemma generic_run_raw (hw : Hardware) (w : World) :
  Now_generic hw w =
  (to_int64 (raw hw SrcClock (time w)),
   {| time := S (time w); trace := trace w ++ [A_gettimeofday] |}).
Proof. rewrite Now_generic_run. now rewrite timeval_micros_wrap. Qed.

(** With the upper half below [2^31] nothing overflows: the result is the
    upper half times [2^32], plus the lower half when the two upper reads
    agree. *)
Lemma powerpc_combine_small (tbu0 tbl tbu1 : Z) :
  uint32_range tbl -> 0 <= tbu1 < 2 ^ 31 ->
  powerpc_combine tbu0 tbl tbu1 =
  tbu1 * 2 ^ 32 + (if tbu0 =? tbu1 then tbl else 0).
Proof.
  intros Hl Hu. rewrite powerpc_combine_sum by int_arith.
  destruct (Z.ltb_spec tbu1 (2 ^ 31)); [reflexivity | lia].
Qed.

Lemma testbit_to_uint32 (x n : Z) :
  0 <= n < 32 -> Z.testbit (to_uint32 x) n = Z.testbit x n.
Proof. intros H. unfold to_uint32, to_uint. apply Z.mod_pow2_bits_low. lia. Qed.

(* ------------------------------------------------------------------ *)
(** ** Which accesses a body makes *)

(** However its statements are placed, the PowerPC body reads nothing
    but the two halves of the time base. *)
Lemma powerpc_accesses (cg : Codegen) (hw : Hardware) (w : World) :
  forall a : Access,
    In a (accesses (Now cg hw BrPowerPC) w) -> a = A_mftbu \/ a = A_mftb.
Proof.
  unfold accesses, Now, Now_powerpc, plain, bind, ret, mftbu, mftb, access,
    at_instant.
  destruct (hoisted cg A_mftbu), (hoisted cg A_mftb), (merge_mftbu cg);
    cbn [fst snd time trace];
    repeat rewrite <- app_assoc; cbn [app];
    (first [rewrite skipn_length_app | rewrite skipn_length_self]);
    simpl; intuition.
Qed.

(** The accesses of every body other than the ARM body with ARMV6. *)
Lemma accesses_elsewhere
      (cg : Codegen) (hw : Hardware) (w : World) (b : Branch) (a : Access) :
  b <> BrArm true ->
  In a (accesses (Now cg hw b) w) ->
  is_pmu_access a = false /\
  (a = A_gettimeofday -> b = BrMips \/ b = BrArm false).
Proof.
  intros Hb Hin.
  destruct (single_read b) as [[s a0] |] eqn:Hs.
  - unfold accesses in Hin.
    rewrite (single_read_run cg hw w b s a0 Hs) in Hin.
    cbn [snd trace] in Hin. rewrite skipn_length_app in Hin.
    destruct Hin as [<- | []].
    destruct b as [| | | | | | | | [|] |]; inversion Hs; subst;
      (split; [reflexivity | discriminate]).
  - destruct b as [| | | | | | | | [|] |]; try discriminate.
    + apply powerpc_accesses in Hin as [-> | ->];
        (split; [reflexivity | discriminate]).
    + contradiction.
    + unfold accesses in Hin. rewrite Now_arm_v3_run, Now_generic_run in Hin.
      cbn [snd trace] in Hin. rewrite skipn_length_app in Hin.
      destruct Hin as [<- | []]. split; [reflexivity | auto].
    + unfold accesses in Hin. rewrite Now_mips_run, Now_generic_run in Hin.
      cbn [snd trace] in Hin. rewrite skipn_length_app in Hin.
      destruct Hin as [<- | []]. split; [reflexivity | auto].
Qed.

(** When the read of the cycle counter is placed ahead of the guards and
    left in the body, it is the first access of every call. *)
Lemma pmccntr_first_access (cg : Codegen) (hw : Hardware) (w : World) :
  pmccntr_first cg = true ->
  hoisted cg A_mrc_pmccntr = None ->
  exists l : list Access,
    accesses (Now cg hw (BrArm true)) w = A_mrc_pmccntr :: l.
Proof.
  intros Hfirst Hplace.
  unfold accesses. unfold_arm. rewrite Hfirst, Hplace.
  destruct (hoisted cg A_mrc_pmuseren), (hoisted cg A_mrc_pmcntenset);
    cbn [fst snd time trace];
    repeat match goal with
           | |- context [truthy ?x] => destruct (truthy x)
           end;
    cbn [fst snd time trace];
    repeat rewrite <- app_assoc; cbn [app];
    rewrite skipn_length_app; eexists; reflexivity.
Qed.

(* ------------------------------------------------------------------ *)
(** ** Calls that trap *)

Lemma run_traps_no_pmu {A : Type} (hw : Hardware) (m : M A) (w : World) :
  (forall a : Access, In a (accesses m w) -> is_pmu_access a = false) ->
  run_traps hw m w = false.
Proof.
  intros Hno. unfold run_traps.
  destruct (existsb _ _) eqn:E; [| reflexivity].
  apply existsb_exists in E as [[t a] [Hin Htrap]].
  apply in_combine_r in Hin. apply Hno in Hin.
  cbn [fst snd] in Htrap. destruct a; discriminate.
Qed.



(* ------------------------------------------------------------------ *)
(** ** Sign of the result *)

Lemma mftbu_raw (hw : Hardware) (t : nat) :
  to_uint32 (Z.shiftr (timebase hw t) 32) = raw hw SrcTimebase t / 2 ^ 32.
Proof. unfold raw. rewrite Z.shiftr_div_pow2 by lia. int_arith. Qed.

Lemma mftb_raw (hw : Hardware) (t : nat) :
  to_uint32 (timebase hw t) = raw hw SrcTimebase t mod 2 ^ 32.
Proof. unfold raw. int_arith. Qed.

(** C7. On every branch the chain can select, and however the plain
    [asm] statements are placed, [Now()] is non-negative whenever the raw
    readings of the sources of that branch are below [2^63]. *)
Theorem Now_nonnegative
        (cg : Codegen) (f : Flags) (b : Branch) (hw : Hardware) (w : World) :
  select f = Some b ->
  (forall s : Source, In s (sources b) -> below_2_63 (raw hw s)) ->
  0 <= fst (Now cg hw b w).
Proof.
  intros _ Hraw.
  destruct (single_read b) as [[s a] |] eqn:Hs.
  - rewrite (single_read_run cg hw w b s a Hs). cbn [fst].
    assert (Hin : In s (sources b)).
    { destruct b as [| | | | | | | | [|] |]; inversion Hs; simpl; auto. }
    pose proof (Hraw s Hin (time w)) as Hb.
    rewrite to_int64_small by (unfold int64_range; lia). lia.
  - destruct b as [| | | | | | | | [|] |]; try discriminate.
    + destruct (Now_powerpc_any cg hw w) as [t0 [t1 [t2 [-> _]]]].
      rewrite !mftbu_raw, mftb_raw.
      pose proof (Hraw SrcTimebase (or_introl eq_refl) t1) as H1.
      pose proof (Hraw SrcTimebase (or_introl eq_refl) t2) as H2.
      rewrite powerpc_combine_small by int_arith.
      destruct (_ =? _); int_arith.
    + pose proof (Hraw SrcClock (or_intror (or_introl eq_refl))) as Hc.
      destruct (Now_arm_v6_any cg hw w) as [[t [-> _]] | [t [_ [-> _]]]].
      * pose proof (to_uint32_range (pmccntr hw t)).
        rewrite arm_scale_exact by assumption. int_arith.
      * specialize (Hc t). rewrite timeval_micros_wrap.
        change (tv_sec (clock hw t) * 1000000 + tv_usec (clock hw t))
          with (raw hw SrcClock t).
        rewrite to_int64_small by (unfold int64_range; lia). lia.
    + rewrite Now_arm_v3_run, generic_run_raw. cbn [fst].
      pose proof (Hraw SrcClock (or_introl eq_refl) (time w)) as Hc.
      rewrite to_int64_small by (unfold int64_range; lia). lia.
    + rewrite Now_mips_run, generic_run_raw. cbn [fst].
      pose proof (Hraw SrcClock (or_introl eq_refl) (time w)) as Hc.
      rewrite to_int64_small by (unfold int64_range; lia). lia.
Qed.

Lemma ticks_bound (t : nat) : 0 <= ticks t <= 1000.
Proof. unfold ticks. lia. Qed.

Lemma ticks_nondecreasing (t t' : nat) : (t <= t')%nat -> ticks t <= ticks t'.
Proof. unfold ticks. lia. Qed.

Lemma hw_demo_below (s : Source) : below_2_63 (raw hw_demo s).
Proof.
  intros t. pose proof (ticks_bound t).
  destruct s; unfold raw;
    cbn [hw_demo mach_time tsc timebase tick itc pmccntr clock tv_sec tv_usec];
    int_arith.
Qed.

Lemma Now_nonnegative_witness :
  0 <= fst (Now as_written hw_demo BrMacOSX power_on) /\
  0 <= fst (Now pmccntr_ahead hw_demo (BrArm true) power_on).
Proof.
  split.
  - exact (Now_nonnegative as_written macosx_flags BrMacOSX hw_demo power_on
             eq_refl (fun s _ => hw_demo_below s)).
  - exact (Now_nonnegative pmccntr_ahead armv6_flags (BrArm true) hw_demo
             power_on eq_refl (fun s _ => hw_demo_below s)).
Defined.

(* ------------------------------------------------------------------ *)
(** ** Successive calls *)

Section Bracketed.

(** A program whose value lies between the readings of a non-decreasing
    counter [c] at the instants where the program starts and stops. *)
Variable m : M Z.
Variable c : nat -> Z.

Hypothesis c_nondecreasing : nondecreasing c.
Hypothesis m_bracketed :
  forall w : World,
    (time w <= time (snd (m w)))%nat /\
    c (time w) <= fst (m w) <= c (time (snd (m w))).

Lemma calls_step (n : nat) (w : World) :
  calls m (S n) w =
  (fst (m w) :: fst (calls m n (snd (m w))), snd (calls m n (snd (m w)))).
Proof.
  cbn [calls]. unfold bind, ret.
  destruct (m w) as [v w1]. cbn [fst snd].
  now destruct (calls m n w1).
Qed.

Lemma calls_above (n : nat) :
  forall w : World, Forall (fun v => c (time w) <= v) (fst (calls m n w)).
Proof.
  induction n as [| n IH]; intros w.
  - constructor.
  - rewrite calls_step. cbn [fst].
    destruct (m_bracketed w) as [Ht [Hlo Hhi]].
    constructor; [exact Hlo |].
    eapply Forall_impl; [| apply IH].
    intros v Hv. cbn beta in Hv.
    pose proof (c_nondecreasing _ _ Ht). lia.
Qed.

Lemma calls_strongly_sorted (n : nat) :
  forall w : World, StronglySorted Z.le (fst (calls m n w)).
Proof.
  induction n as [| n IH]; intros w.
  - constructor.
  - rewrite calls_step. cbn [fst].
    destruct (m_bracketed w) as [Ht [Hlo Hhi]].
    constructor; [apply IH |].
    eapply Forall_impl; [| apply calls_above].
    intros v Hv. cbn beta in Hv. lia.
Qed.

End Bracketed.

Lemma calls_length (m : M Z) (n : nat) :
  forall w : World, List.length (fst (calls m n w)) = n.
Proof.
  induction n as [| n IH]; intros w.
  - reflexivity.
  - cbn [calls]. unfold bind, ret. destruct (m w) as [v w1].
    specialize (IH w1). destruct (calls m n w1) as [vs w2].
    cbn [fst] in *. simpl. now rewrite IH.
Qed.

(** The bodies whose reads stay in place return a value between the
    readings of their counter at the instants where they start and
    stop. *)
Lemma Now_bracketed (cg : Codegen) (hw : Hardware) (b : Branch) :
  reads_in_place b = true ->
  (forall s : Source, In s (sources b) -> nondecreasing (raw hw s)) ->
  (forall s : Source, In s (sources b) -> within_int64 (raw hw s)) ->
  exists c : nat -> Z,
    nondecreasing c /\
    forall w : World,
      (time w <= time (snd (Now cg hw b w)))%nat /\
      c (time w) <= fst (Now cg hw b w) <= c (time (snd (Now cg hw b w))).
Proof.
  intros Hplace Hmono Hbelow.
  assert (Hclock : In SrcClock (sources b) ->
    nondecreasing (raw hw SrcClock) /\
    forall w : World,
      raw hw SrcClock (time w)
        <= to_int64 (raw hw SrcClock (time w))
        <= raw hw SrcClock (S (time w))).
  { intros Hin. split; [now apply Hmono |]. intros w.
    pose proof (Hbelow _ Hin (time w)).
    pose proof (Hmono _ Hin (time w) (S (time w)) ltac:(lia)).
    rewrite to_int64_small by assumption. lia. }
  destruct (single_read b) as [[s a] |] eqn:Hs.
  - assert (Hin : In s (sources b)).
    { destruct b as [| | | | | | | | [|] |]; inversion Hs; simpl; auto. }
    exists (raw hw s). split; [now apply Hmono |]. intros w.
    rewrite (single_read_run cg hw w b s a Hs). cbn [fst snd time].
    pose proof (Hbelow s Hin (time w)).
    pose proof (Hmono s Hin (time w) (S (time w)) ltac:(lia)).
    rewrite to_int64_small by assumption. lia.
  - destruct b as [| | | | | | | | [|] |]; try discriminate.
    + (* ARM without ARMV6 *)
      destruct (Hclock (or_introl eq_refl)) as [Hcm Hcb].
      exists (raw hw SrcClock). split; [exact Hcm |].
      intros w. rewrite Now_arm_v3_run, generic_run_raw.
      cbn [fst snd time]. split; [lia | apply Hcb].
    + (* MIPS *)
      destruct (Hclock (or_introl eq_refl)) as [Hcm Hcb].
      exists (raw hw SrcClock). split; [exact Hcm |].
      intros w. rewrite Now_mips_run, generic_run_raw.
      cbn [fst snd time]. split; [lia | apply Hcb].
Qed.

Lemma not_sorted_pair (x y : Z) : y < x -> ~ Sorted Z.le [x; y].
Proof.
  intros Hlt Hs. inversion Hs as [| ? ? _ Hhd]; subst.
  inversion Hhd; subst. lia.
Qed.

Lemma hw_tb_carry_steady_rise :
  nondecreasing (raw hw_tb_carry SrcTimebase) /\
  below_2_63 (raw hw_tb_carry SrcTimebase).
Proof.
  split.
  - intros t t' Hle.
    destruct t as [| [| [| t]]], t' as [| [| [| t']]]; try lia;
      vm_compute; congruence.
  - intros t. destruct t as [| [| [| t]]]; vm_compute; split; congruence.
Qed.



Lemma hw_demo_nondecreasing (s : Source) : nondecreasing (raw hw_demo s).
Proof.
  intros t t' Hle.
  pose proof (ticks_bound t). pose proof (ticks_bound t').
  pose proof (ticks_nondecreasing t t' Hle).
  destruct s; unfold raw;
    cbn [hw_demo mach_time tsc timebase tick itc pmccntr clock tv_sec tv_usec];
    int_arith.
Qed.

Lemma below_within (c : nat -> Z) : below_2_63 c -> within_int64 c.
Proof. intros H t. specialize (H t). unfold int64_range. lia. Qed.


(* ------------------------------------------------------------------ *)
(** ** The chain of guards as a whole *)

(** X1. First match wins: the body selected is the first one, in the
    order of the [#if]/[#elif] lines, whose guard holds; in particular
    [OS_MACOSX] selects the Mach body whatever else is defined, and
    [__i386__] selects the inline-assembly body even under
    [COMPILER_MSVC]. *)
Theorem select_first_match (f : Flags) :
  select f = find (guard f) all_branches
  /\ (OS_MACOSX f = true -> select f = Some BrMacOSX)
  /\ (OS_MACOSX f = false -> __i386__ f = true -> select f = Some BrI386).
Proof.
  split; [| split].
  - unfold select, all_branches. cbn [find guard].
    destruct (OS_MACOSX f); [reflexivity |].
    destruct (__i386__ f); [reflexivity |].
    destruct (__x86_64__ f || __amd64__ f); [reflexivity |].
    destruct (__powerpc__ f || __ppc__ f); [reflexivity |].
    destruct (__sparc__ f); [reflexivity |].
    destruct (__ia64__ f); [reflexivity |].
    destruct (COMPILER_MSVC f && _M_IX86 f); [reflexivity |].
    destruct (COMPILER_MSVC f); [reflexivity |].
    destruct (ARMV3 f); [now destruct (ARMV6 f) |].
    cbn [andb]. now destruct (__mips__ f).
  - intros H. unfold select. now rewrite H.
  - intros H1 H2. unfold select. now rewrite H1, H2.
Qed.

Lemma select_first_match_witness :
  select macosx_flags = Some BrMacOSX.
Proof. exact (proj1 (proj2 (select_first_match macosx_flags)) eq_refl). Defined.

(** X2. [ARMV6] is tested only inside the [ARMV3] body: defining or
    undefining it never changes which body is selected, except for the
    variant of the ARM body, and never changes whether the header
    builds. *)
Theorem ARMV6_only_under_ARMV3 (cg : Codegen) (f : Flags) (v : bool) :
  select (set_ARMV6 v f) =
    match select f with
    | Some (BrArm _) => Some (BrArm v)
    | other => other
    end
  /\ recognized (set_ARMV6 v f) = recognized f
  /\ (ARMV3 f = false -> build cg (set_ARMV6 v f) = build cg f).
Proof.
  assert (Hsel : select (set_ARMV6 v f) =
    match select f with
    | Some (BrArm _) => Some (BrArm v)
    | other => other
    end).
  { unfold select, set_ARMV6. cbn.
    destruct (OS_MACOSX f); [reflexivity |].
    destruct (__i386__ f); [reflexivity |].
    destruct (__x86_64__ f || __amd64__ f); [reflexivity |].
    destruct (__powerpc__ f || __ppc__ f); [reflexivity |].
    destruct (__sparc__ f); [reflexivity |].
    destruct (__ia64__ f); [reflexivity |].
    destruct (COMPILER_MSVC f && _M_IX86 f); [reflexivity |].
    destruct (COMPILER_MSVC f); [reflexivity |].
    destruct (ARMV3 f); [reflexivity |].
    now destruct (__mips__ f). }
  split; [exact Hsel | split].
  - destruct (recognized f) eqn:Hr.
    + apply recognized_select. apply recognized_select in Hr as [b Hb].
      rewrite Hsel, Hb. destruct b; eauto.
    + destruct (recognized (set_ARMV6 v f)) eqn:Hr'; [| reflexivity].
      apply recognized_select in Hr' as [b Hb]. rewrite Hsel in Hb.
      assert (recognized f = true); [| congruence].
      apply recognized_select.
      destruct (select f) as [b0 |]; [eauto | discriminate].
  - intros H3. unfold build. rewrite Hsel.
    destruct (select f) as [b |] eqn:Hb; [| reflexivity].
    destruct b; try reflexivity.
    apply select_guard in Hb. cbn in Hb. rewrite H3 in Hb. discriminate.
Qed.

Lemma ARMV6_only_under_ARMV3_witness :
  build as_written (set_ARMV6 true no_flags) = build as_written no_flags.
Proof.
  exact (proj2 (proj2 (ARMV6_only_under_ARMV3 as_written no_flags true))
           eq_refl).
Defined.

(** X3. Each body finds what it calls in scope: the Mach body is selected
    exactly when [<mach/mach_time.h>] is included, and the body that calls
    [__rdtsc()] is selected only when the header has declared it; the
    [_asm rdtsc] body is selected only when it has not. *)
Theorem selected_body_is_declared (f : Flags) :
  (select f = Some BrMacOSX <-> includes_mach_time f = true)
  /\ (select f = Some BrMsvc -> declares_rdtsc f = true)
  /\ (select f = Some BrMsvcIX86 -> declares_rdtsc f = false).
Proof.
  unfold includes_mach_time, declares_rdtsc, select.
  destruct (OS_MACOSX f).
  { repeat split; try discriminate; auto. }
  destruct (__i386__ f);
    [repeat split; discriminate |].
  destruct (__x86_64__ f || __amd64__ f);
    [repeat split; discriminate |].
  destruct (__powerpc__ f || __ppc__ f);
    [repeat split; discriminate |].
  destruct (__sparc__ f);
    [repeat split; discriminate |].
  destruct (__ia64__ f);
    [repeat split; discriminate |].
  destruct (COMPILER_MSVC f), (_M_IX86 f); cbn;
    try (repeat split; (discriminate || reflexivity)).
  - destruct (ARMV3 f); [| destruct (__mips__ f)];
      repeat split; discriminate.
  - destruct (ARMV3 f); [| destruct (__mips__ f)];
      repeat split; discriminate.
Qed.

Lemma selected_body_is_declared_witness :
  declares_rdtsc msvc_x64_flags = true.
Proof.
  exact (proj1 (proj2 (selected_body_is_declared msvc_x64_flags)) eq_refl).
Defined.

(* ------------------------------------------------------------------ *)
(** ** The bodies the claims leave aside *)

Lemma reads_tsc_single (b : Branch) :
  reads_tsc b = true -> single_read b = Some (SrcTSC, A_rdtsc).
Proof. destruct b; (discriminate || reflexivity). Qed.

Lemma to_int64_halves (x : Z) :
  to_uint32 (to_int64 x) = to_uint32 x /\
  to_uint32 (Z.shiftr (to_int64 x) 32) = to_uint32 (Z.shiftr x 32).
Proof. rewrite !Z.shiftr_div_pow2 by lia. split; int_arith. Qed.

(** X4. The four bodies built on [rdtsc] (inline assembly for i386 and
    x86-64, [_asm] and [__rdtsc()] for MSVC) return the same thing: the
    64-bit time-stamp counter read as [int64_t], low half EAX and high
    half EDX, after one [rdtsc]. *)
Theorem tsc_bodies_agree
        (cg : Codegen) (hw : Hardware) (w : World) (b : Branch) :
  reads_tsc b = true ->
  Now cg hw b w = Now cg hw BrX86_64 w
  /\ fst (Now cg hw b w) = to_int64 (raw hw SrcTSC (time w))
  /\ to_uint32 (fst (Now cg hw b w)) = fst (fst (rdtsc hw w))
  /\ to_uint32 (Z.shiftr (fst (Now cg hw b w)) 32) = snd (fst (rdtsc hw w))
  /\ accesses (Now cg hw b) w = [A_rdtsc].
Proof.
  intros Hb. apply reads_tsc_single in Hb.
  unfold accesses.
  rewrite (single_read_run cg hw w b _ _ Hb),
          (single_read_run cg hw w BrX86_64 _ _ eq_refl).
  cbn [fst snd trace]. unfold raw, rdtsc, access. cbn [fst snd].
  destruct (to_int64_halves (to_uint64 (tsc hw (time w)))) as [Hlo Hhi].
  split; [reflexivity | split; [reflexivity | split; [| split]]].
  - rewrite Hlo. int_arith.
  - rewrite Hhi, !Z.shiftr_div_pow2 by lia. int_arith.
  - apply skipn_length_app.
Qed.

Lemma tsc_bodies_agree_witness :
  Now as_written hw_demo BrMsvc power_on
    = Now as_written hw_demo BrX86_64 power_on /\
  fst (Now as_written hw_demo BrMsvcIX86 power_on) = 5 * 2 ^ 32 + 7.
Proof.
  split.
  - exact (proj1 (tsc_bodies_agree as_written hw_demo power_on BrMsvc
                    eq_refl)).
  - exact (proj1 (proj2 (tsc_bodies_agree as_written hw_demo power_on
                           BrMsvcIX86 eq_refl))).
Defined.

(** X5. For the bodies that make a single read (Mach, the four [rdtsc]
    bodies, SPARC, IA-64) the conversion to [int64_t] loses nothing: the
    result converted back to [uint64_t] is the raw counter.  The result
    is the raw counter itself below [2^63] and the raw counter minus
    [2^64] from there on, so it is negative exactly when bit 63 of the
    counter is set; and the difference of two results agrees with the
    difference of the two raw readings modulo [2^64]. *)
Theorem single_read_round_trip
        (cg : Codegen) (hw : Hardware) (w : World)
        (b : Branch) (s : Source) (a : Access) :
  single_read b = Some (s, a) ->
  to_uint64 (fst (Now cg hw b w)) = raw hw s (time w)
  /\ fst (Now cg hw b w) =
       (if raw hw s (time w) <? 2 ^ 63 then raw hw s (time w)
        else raw hw s (time w) - 2 ^ 64)
  /\ (fst (Now cg hw b w) < 0 <-> 2 ^ 63 <= raw hw s (time w))
  /\ (forall w' : World,
        to_uint64 (fst (Now cg hw b w') - fst (Now cg hw b w)) =
        to_uint64 (raw hw s (time w') - raw hw s (time w)))
  /\ accesses (Now cg hw b) w = [a].
Proof.
  intros Hs.
  assert (Hr : forall t, uint64_range (raw hw s t)).
  { intros t. destruct b as [| | | | | | | | [|] |]; inversion Hs; subst;
      apply to_uint64_range. }
  unfold accesses.
  split; [| split; [| split; [| split]]].
  - rewrite (single_read_run cg hw w b s a Hs). cbn [fst].
    rewrite to_uint64_to_int64. apply to_uint64_small, Hr.
  - rewrite (single_read_run cg hw w b s a Hs). cbn [fst].
    specialize (Hr (time w)).
    destruct (Z.ltb_spec (raw hw s (time w)) (2 ^ 63)); int_arith.
  - rewrite (single_read_run cg hw w b s a Hs). cbn [fst].
    specialize (Hr (time w)). int_arith.
  - intros w'.
    rewrite (single_read_run cg hw w b s a Hs), (single_read_run cg hw w' b s a Hs).
    cbn [fst]. int_arith.
  - rewrite (single_read_run cg hw w b s a Hs). cbn [snd trace].
    apply skipn_length_app.
Qed.

Lemma single_read_round_trip_witness :
  to_uint64 (fst (Now as_written hw_tsc_high BrI386 power_on)) = 2 ^ 63 /\
  fst (Now as_written hw_tsc_high BrI386 power_on) = 2 ^ 63 - 2 ^ 64.
Proof.
  pose (H := single_read_round_trip as_written hw_tsc_high power_on BrI386
               SrcTSC A_rdtsc eq_refl).
  split.
  - exact (proj1 H).
  - exact (proj1 (proj2 H)).
Defined.



(** X7. Where the system call is made, however the bodies are built:
    [gettimeofday] is called only by the ARM and MIPS bodies, and the MIPS
    body and the ARM body without ARMV6 do nothing else; the
    performance-monitor registers are touched only by the ARM body with
    ARMV6.  Every other body reads its counter without a call to the
    clock. *)
Theorem clock_call_only_on_fallback
        (cg : Codegen) (hw : Hardware) (w : World) (b : Branch) :
  (In A_gettimeofday (accesses (Now cg hw b) w) ->
   b = BrMips \/ exists v6 : bool, b = BrArm v6)
  /\ (existsb is_pmu_access (accesses (Now cg hw b) w) = true ->
      b = BrArm true)
  /\ (b = BrMips \/ b = BrArm false ->
      accesses (Now cg hw b) w = [A_gettimeofday]).
Proof.
  assert (Hdec : b = BrArm true \/ b <> BrArm true).
  { destruct b as [| | | | | | | | [|] |];
      first [left; reflexivity | right; discriminate]. }
  split; [| split].
  - intros Hin. destruct Hdec as [-> | Hb]; [eauto |].
    destruct (accesses_elsewhere cg hw w b _ Hb Hin) as [_ H].
    destruct (H eq_refl) as [-> | ->]; eauto.
  - intros Hex. destruct Hdec as [Hb | Hb]; [exact Hb |].
    apply existsb_exists in Hex as [a [Hin Hpmu]].
    destruct (accesses_elsewhere cg hw w b a Hb Hin) as [Hno _].
    congruence.
  - unfold accesses. intros [-> | ->].
    + rewrite Now_mips_run, Now_generic_run. cbn [snd trace].
      apply skipn_length_app.
    + rewrite Now_arm_v3_run, Now_generic_run. cbn [snd trace].
      apply skipn_length_app.
Qed.

Lemma clock_call_only_on_fallback_witness :
  accesses (Now as_written hw_demo BrMips) power_on = [A_gettimeofday].
Proof.
  exact (proj2 (proj2 (clock_call_only_on_fallback as_written hw_demo
                         power_on BrMips))
           (or_introl eq_refl)).
Defined.

(** X8. Scale of the generic value: a reading with [tv_usec] one million
    too high gives the same value as the reading with one more second;
    one more second adds exactly [1,000,000] while both values fit in
    [int64_t]; and, the arithmetic being done in 64 bits, the value repeats
    when [tv_sec] advances by [2^58]. *)
Theorem timeval_micros_scale (s u : Z) :
  timeval_micros {| tv_sec := s; tv_usec := u + 1000000 |}
    = timeval_micros {| tv_sec := s + 1; tv_usec := u |}
  /\ timeval_micros {| tv_sec := s + 2 ^ 58; tv_usec := u |}
    = timeval_micros {| tv_sec := s; tv_usec := u |}
  /\ (int64_range (s * 1000000 + u) ->
      int64_range ((s + 1) * 1000000 + u) ->
      timeval_micros {| tv_sec := s + 1; tv_usec := u |}
        = timeval_micros {| tv_sec := s; tv_usec := u |} + 1000000).
Proof.
  rewrite !timeval_micros_wrap. cbn [tv_sec tv_usec].
  split; [| split].
  - f_equal. lia.
  - change (2 ^ 58) with 288230376151711744. int_arith.
  - intros H1 H2. rewrite !to_int64_small by assumption. lia.
Qed.

Lemma timeval_micros_scale_witness :
  timeval_micros {| tv_sec := 13; tv_usec := 5 |}
  = timeval_micros {| tv_sec := 12; tv_usec := 5 |} + 1000000.
Proof.
  exact (proj2 (proj2 (timeval_micros_scale 12 5))
           ltac:(unfold int64_range; lia) ltac:(unfold int64_range; lia)).
Defined.

(** X9. Each body depends on its own sources only, however it is
    built: two states of the hardware that agree, at every instant, on the
    raw readings of the sources of a body (and, for the ARM body with
    ARMV6, on the two guard bits) give the same result and the same
    accesses, whatever the other registers hold. *)
Theorem Now_depends_on_sources_only
        (cg : Codegen) (hw hw' : Hardware) (b : Branch) (w : World) :
  (forall s : Source, In s (sources b) ->
     forall t : nat, raw hw s t = raw hw' s t) ->
  (b = BrArm true ->
     forall t : nat,
       Z.testbit (pmuseren hw t) 0 = Z.testbit (pmuseren hw' t) 0 /\
       Z.testbit (pmcntenset hw t) 31 = Z.testbit (pmcntenset hw' t) 31) ->
  Now cg hw b w = Now cg hw' b w.
Proof.
  intros Hraw Hbits.
  destruct (single_read b) as [[s a] |] eqn:Hs.
  - assert (Hin : In s (sources b)).
    { destruct b as [| | | | | | | | [|] |]; inversion Hs; simpl; auto. }
    rewrite (single_read_run cg hw w b s a Hs),
            (single_read_run cg hw' w b s a Hs).
    now rewrite (Hraw s Hin).
  - destruct b as [| | | | | | | | [|] |]; try discriminate.
    + (* PowerPC: both halves are functions of the raw time base *)
      pose proof (Hraw SrcTimebase (or_introl eq_refl)) as Htb.
      unfold Now, Now_powerpc, plain, bind, ret, mftbu, mftb, access,
        at_instant.
      destruct (hoisted cg A_mftbu), (hoisted cg A_mftb), (merge_mftbu cg);
        cbn [fst snd time trace];
        rewrite !mftbu_raw, !mftb_raw, !Htb; reflexivity.
    + (* ARM with ARMV6 *)
      pose proof (fun t => proj1 (Hbits eq_refl t)) as Hb0.
      pose proof (fun t => proj2 (Hbits eq_refl t)) as Hb31.
      pose proof (Hraw SrcPMCCNTR (or_introl eq_refl)) as Hp.
      pose proof (Hraw SrcClock (or_intror (or_introl eq_refl))) as Hc.
      unfold raw in Hp, Hc.
      unfold_arm.
      destruct (pmccntr_first cg), (hoisted cg A_mrc_pmccntr),
        (hoisted cg A_mrc_pmuseren), (hoisted cg A_mrc_pmcntenset);
        repeat (cbn [fst snd time trace];
                repeat rewrite truthy_land_1;
                repeat rewrite truthy_land_bit31;
                repeat (rewrite testbit_to_uint32 by lia);
                repeat rewrite Hb0; repeat rewrite Hb31;
                match goal with
                | |- context [Z.testbit ?x ?n] => destruct (Z.testbit x n)
                end);
        cbn [fst snd time trace];
        repeat rewrite timeval_micros_wrap;
        repeat rewrite Hp; repeat rewrite Hc; reflexivity.
    + rewrite !Now_arm_v3_run, !generic_run_raw.
      now rewrite (Hraw SrcClock (or_introl eq_refl)).
    + rewrite !Now_mips_run, !generic_run_raw.
      now rewrite (Hraw SrcClock (or_introl eq_refl)).
Qed.

Lemma Now_depends_on_sources_only_witness :
  Now pmccntr_ahead hw_demo BrMips power_on
  = Now pmccntr_ahead hw_no_user BrMips power_on.
Proof.
  refine (Now_depends_on_sources_only pmccntr_ahead hw_demo hw_no_user
            BrMips power_on _ _).
  - intros s [<- | []] t. reflexivity.
  - intros H. discriminate H.
Defined.

(** X10. Progress, for the bodies whose reads stay where they are
    written (Mac OS X, the four [rdtsc] bodies, ARM without ARMV6, MIPS):
    if the raw reading of the source is higher at the instant of the
    second call than at the instant of the first and an [int64_t] holds
    both, the second call returns strictly more than the first. *)
Theorem Now_progress
        (cg : Codegen) (f : Flags) (b : Branch) (hw : Hardware) (w : World) :
  select f = Some b ->
  reads_in_place b = true ->
  (forall s : Source, In s (sources b) ->
     raw hw s (time w) < raw hw s (S (time w))) ->
  (forall s : Source, In s (sources b) -> within_int64 (raw hw s)) ->
  fst (Now cg hw b w) < fst (Now cg hw b (snd (Now cg hw b w))).
Proof.
  intros _ Hplace Hinc Hbelow.
  assert (Hclock : In SrcClock (sources b) ->
            to_int64 (raw hw SrcClock (time w))
            < to_int64 (raw hw SrcClock (S (time w)))).
  { intros Hin.
    pose proof (Hbelow _ Hin (time w)).
    pose proof (Hbelow _ Hin (S (time w))).
    pose proof (Hinc _ Hin).
    rewrite !to_int64_small by assumption. lia. }
  destruct (single_read b) as [[s a] |] eqn:Hs.
  - assert (Hin : In s (sources b)).
    { destruct b as [| | | | | | | | [|] |]; inversion Hs; simpl; auto. }
    rewrite !(single_read_run cg hw _ b s a Hs). cbn [fst snd time].
    pose proof (Hbelow s Hin (time w)).
    pose proof (Hbelow s Hin (S (time w))).
    pose proof (Hinc s Hin).
    rewrite !to_int64_small by assumption. lia.
  - destruct b as [| | | | | | | | [|] |]; try discriminate.
    + rewrite !Now_arm_v3_run, !generic_run_raw. cbn [fst snd time].
      exact (Hclock (or_introl eq_refl)).
    + rewrite !Now_mips_run, !generic_run_raw. cbn [fst snd time].
      exact (Hclock (or_introl eq_refl)).
Qed.

Lemma hw_demo_increasing (s : Source) (t t' : nat) :
  (t < t')%nat -> (t' <= 5)%nat -> raw hw_demo s t < raw hw_demo s t'.
Proof.
  intros Hlt Hle.
  destruct s; unfold raw;
    cbn [hw_demo mach_time tsc timebase tick itc pmccntr clock tv_sec tv_usec];
    unfold ticks; int_arith.
Qed.

Lemma Now_progress_witness :
  fst (Now as_written hw_demo BrMips power_on)
  < fst (Now as_written hw_demo BrMips
           (snd (Now as_written hw_demo BrMips power_on))).
Proof.
  exact (Now_progress as_written
           {| OS_MACOSX := false; __i386__ := false; __x86_64__ := false;
              __amd64__ := false; __powerpc__ := false; __ppc__ := false;
              __sparc__ := false; __ia64__ := false; COMPILER_MSVC := false;
              _M_IX86 := false; ARMV3 := false; ARMV6 := false;
              __mips__ := true |}
           BrMips hw_demo power_on eq_refl eq_refl
           (fun s _ => hw_demo_increasing s 0%nat 1%nat ltac:(lia) ltac:(lia))
           (fun s _ => below_within _ (hw_demo_below s))).
Defined.
